(** * Quote pricing of the HYD Builder quote generator (src/app.py)

    A shallow embedding of [calc_item_total], [calculate_quote], the two
    documents, the sidebar and the pages of the app, with the properties
    the specification states about them.

    Python numbers are duck-typed; the code only uses [+], [-], [*], [/],
    [>] and integer literals on them.  The embedding is therefore written
    once over an interface [PyNumber] and read at three instances:
    - [float], IEEE-754 binary64 with round-to-nearest-even: Python's
      [float], what the number inputs of the app produce.  The amounts of
      a quote are stated at this instance;
    - [pynum], Python's numbers as they are: unbounded [int]s next to
      [float]s, with the conversions between them and the exceptions they
      raise.  On [float] inputs it computes what the [float] instance
      computes;
    - [Q], exact rational arithmetic, the "decimal" amounts the
      specification writes.  It agrees with Python where nothing is
      rounded: comparisons, products by 0, the worked examples.

    Statements that hold whatever the numbers are (rows, order, effects)
    are proved for every instance. *)

From Stdlib Require Import ZArith Lia QArith Lqa.
From Stdlib Require Import PrimFloat FloatOps FloatAxioms SpecFloat.
From stdpp Require Import gmap strings list fin_maps pretty.

Set Warnings "-inexact-float".
Local Open Scope string_scope.
Local Open Scope list_scope.

(** ** Numbers *)

Class PyNumber (num : Type) := {
  of_int : Z -> num;              (* an [int] literal or value *)
  add : num -> num -> num;        (* x + y *)
  sub : num -> num -> num;        (* x - y *)
  mul : num -> num -> num;        (* x * y *)
  truediv : num -> num -> num;    (* x / y *)
  gt : num -> num -> bool;        (* x > y *)
}.

Declare Scope py_scope.
Delimit Scope py_scope with py.
Infix "+" := add : py_scope.
Infix "-" := sub : py_scope.
Infix "*" := mul : py_scope.
Infix "/" := truediv : py_scope.
Infix ">?" := gt (at level 70) : py_scope.

(** Exact rational arithmetic.  Python's own [/] rounds to binary64, even
    on two [int]s: this instance is the arithmetic of the specification's
    decimals, and it is what Python computes only where no operation
    rounds or overflows. *)
#[global] Instance Q_number : PyNumber Q := {|
  of_int := inject_Z;
  add := Qplus;
  sub := Qminus;
  mul := Qmult;
  truediv := Qdiv;
  gt := fun x y => negb (Qle_bool x y);
|}.

(** [float(z)]: the binary64 nearest to the integer [z], ties to even.
    Past the largest binary64 Python raises [OverflowError] where this
    gives an infinity ([as_float] below has the exception); at the [float]
    instance it converts only the literals 0 and 100, the constant
    [GST_PERCENT] and the rates. *)
Definition float_of_int (z : Z) : float :=
  SF2Prim (binary_normalize prec emax z 0 false).

#[global] Instance float_number : PyNumber float := {|
  of_int := float_of_int;
  add := PrimFloat.add;
  sub := PrimFloat.sub;
  mul := PrimFloat.mul;
  truediv := PrimFloat.div;
  gt := fun x y => PrimFloat.ltb y x;
|}.

(** *** Python's own numbers

    The two instances above fix one kind of number.  Python chooses the
    operation by its operands: [int] with [int] is exact and unbounded,
    except [/], which is the correctly rounded binary64 quotient; an
    operation with a [float] operand is the binary64 one, after [float(_)]
    of an [int] operand.  Both [float(_)] and the quotient of two [int]s
    raise [OverflowError] when the result is past the largest binary64, and
    [/] by zero raises [ZeroDivisionError].  [PyRaise] stands for an
    expression whose evaluation raised: an operation on it raises the same
    exception. *)
Inductive py_error := OverflowError | ZeroDivisionError.

Inductive pynum :=
  | PyInt (z : Z)
  | PyFloat (f : float)
  | PyRaise (e : py_error).

(** [float(x)] of an operand. *)
Definition as_float (x : pynum) : py_error + float :=
  match x with
  | PyInt z =>
      let f := float_of_int z in
      if is_infinity f then inl OverflowError else inr f
  | PyFloat f => inr f
  | PyRaise e => inl e
  end.

(** A binary operator: the operands are evaluated left to right, then two
    [int]s go to [iop] and any other pair to [fop] as floats. *)
Definition py_binop (iop : Z -> Z -> pynum) (fop : float -> float -> pynum)
    (x y : pynum) : pynum :=
  match x, y with
  | PyRaise e, _ => PyRaise e
  | _, PyRaise e => PyRaise e
  | PyInt a, PyInt b => iop a b
  | _, _ =>
      match as_float x, as_float y with
      | inl e, _ => PyRaise e
      | _, inl e => PyRaise e
      | inr f, inr g => fop f g
      end
  end.

(** An [int] as an unrounded binary number. *)
Definition Z2SF (z : Z) : spec_float :=
  match z with
  | Z0 => S754_zero false
  | Zpos p => S754_finite false p 0
  | Zneg p => S754_finite true p 0
  end.

(** [a / b] on two [int]s. *)
Definition int_truediv (a b : Z) : pynum :=
  if Z.eqb b 0 then PyRaise ZeroDivisionError
  else
    match SFdiv prec emax (Z2SF a) (Z2SF b) with
    | S754_infinity _ => PyRaise OverflowError
    | r => PyFloat (SF2Prim r)
    end.

(** [f / g] on two [float]s. *)
Definition float_truediv (f g : float) : pynum :=
  if is_zero g then PyRaise ZeroDivisionError else PyFloat (f / g)%float.

(** The order of a [float] and an [int], which Python decides exactly. *)
Definition SF_compare_Z (x : spec_float) (z : Z) : option comparison :=
  match x with
  | S754_nan => None
  | S754_infinity s => Some (if s then Lt else Gt)
  | S754_zero _ => Some (Z.compare 0 z)
  | S754_finite s m e =>
      let v := if s then Zneg m else Zpos m in
      Some (if Z.leb 0 e then Z.compare (v * 2 ^ e) z
            else Z.compare v (z * 2 ^ (- e)))
  end.

Definition py_gt (x y : pynum) : bool :=
  match x, y with
  | PyInt a, PyInt b => Z.ltb b a
  | PyFloat f, PyFloat g => PrimFloat.ltb g f
  | PyFloat f, PyInt b =>
      match SF_compare_Z (Prim2SF f) b with Some Gt => true | _ => false end
  | PyInt a, PyFloat g =>
      match SF_compare_Z (Prim2SF g) a with Some Lt => true | _ => false end
  | _, _ => false
  end.

#[global] Instance python_number : PyNumber pynum := {|
  of_int := PyInt;
  add := py_binop (fun a b => PyInt (a + b)) (fun f g => PyFloat (f + g)%float);
  sub := py_binop (fun a b => PyInt (a - b)) (fun f g => PyFloat (f - g)%float);
  mul := py_binop (fun a b => PyInt (a * b)) (fun f g => PyFloat (f * g)%float);
  truediv := py_binop int_truediv float_truediv;
  gt := py_gt;
|}.

(** ** Data model and the pricing engine *)

Section Engine.
Context {num : Type} `{PyNumber num}.
Local Open Scope py_scope.

(** An element of [selected_items]: [{'name': ..., 'qty': ...}], with an
    optional ['unit'] key. *)
Record selection := Selection {
  sel_name : string;
  sel_qty : num;
  sel_unit : option string;
}.

(** A dict appended to [rows]; the fields are the keys ['Item'], ['Qty'],
    ['Unit Price (₹)'] and ['Total (₹)']. *)
Record row := Row {
  Item : string;
  Qty : num;
  Unit_Price : num;
  Total : num;
}.

(** A Python dict of extra charges: its items in insertion order.  (A dict
    has no key twice; nothing below needs that.) *)
Definition extras_dict := list (string * num).

(** The dict returned by [calculate_quote]. *)
Record QuoteComputation := Quote {
  rows : list row;
  extras : extras_dict;
  subtotal : num;
  discount_amt : num;
  taxable : num;
  gst_amt : num;
  grand_total : num;
}.

(** The module-level price list as the file defines it; the Admin page
    rewrites its values, so the engine below takes the current contents
    as an argument. *)
Definition SAMPLE_RATES : gmap string num :=
  list_to_map [
    ("Cement (bag, 50kg)", of_int 420);
    ("Bricks (1000 nos)", of_int 7000);
    ("Sand (per cu.m)", of_int 1500);
    ("Steel (per ton)", of_int 65000);
    ("Plastering (labor per sq.ft)", of_int 25);
    ("Flooring (tiles per sq.ft incl material+labour)", of_int 250);
    ("Painting (per sq.ft)", of_int 18);
    ("Electrical (per point incl material+labour)", of_int 1200)
  ].

Definition GST_PERCENT : Z := 18.

(** [d.get(k, default)] *)
Definition dict_get (d : gmap string num) (k : string) (default : num) : num :=
  match d !! k with
  | Some v => v
  | None => default
  end.

(** The builtin [sum]: a left fold from the integer 0 (plain addition, as
    CPython does up to 3.11; later versions compensate the rounding of a
    sum of floats). *)
Definition py_sum (xs : list num) : num := foldl add (of_int 0) xs.

(** Truth value of a dict: [False] exactly when it is empty. *)
Definition truthy {A : Type} (d : list A) : bool :=
  match d with
  | [] => false
  | _ :: _ => true
  end.


(** One pass of the body of [for it in selected_items], on the pair of
    local variables [(rows, subtotal)]. *)
Definition quote_step (rates : gmap string num) (st : list row * num) (it : selection)
  : list row * num :=
  let '(rows, subtotal) := st in
  let name := sel_name it in
  let qty := sel_qty it in
  let unit := default "unit" (sel_unit it) in
  let rate := dict_get rates name (of_int 0) in
  let total := rate * qty in
  (rows ++ [ {| Item := name; Qty := qty; Unit_Price := rate; Total := total |} ],
   subtotal + total).

Definition calculate_quote (rates : gmap string num) (selected_items : list selection)
    (extras : extras_dict) (discount_percent : num) : QuoteComputation :=
  let '(rows, subtotal) := foldl (quote_step rates) ([], of_int 0) selected_items in
  let extras_total := if truthy extras then py_sum (extras.*2) else of_int 0 in
  let subtotal := subtotal + extras_total in
  let discount_amt := subtotal * (discount_percent / of_int 100) in
  let taxable := subtotal - discount_amt in
  let gst_amt := taxable * of_int GST_PERCENT / of_int 100 in
  let grand_total := taxable + gst_amt in
  {| rows := rows;
     extras := extras;
     subtotal := subtotal;
     discount_amt := discount_amt;
     taxable := taxable;
     gst_amt := gst_amt;
     grand_total := grand_total |}.

(** The row that one pass of the loop appends for the selection [it]; the
    lemmas state what the loop computes with it. *)
Definition row_of (rates : gmap string num) (it : selection) : row :=
  {| Item := sel_name it;
     Qty := sel_qty it;
     Unit_Price := dict_get rates (sel_name it) (of_int 0);
     Total := dict_get rates (sel_name it) (of_int 0) * sel_qty it |}.

(** ** Callers of the engine *)

(** A cell of the table that [generate_pdf_bytes] hands to reportlab. *)
Inductive cell :=
  | Text (s : string)      (* a [str] *)
  | Number (x : num)       (* a number stored as it is *)
  | Grouped (x : num).     (* the f-string [f"{x:,}"] *)

(** The list [data] of [generate_pdf_bytes]: the header, a line per row,
    then a line per extra charge when the extras are not empty. *)
Definition generate_pdf_bytes_data (quote_calc : QuoteComputation) : list (list cell) :=
  let data := [[Text "Item"; Text "Qty"; Text "Unit Price (₹)"; Text "Total (₹)"]] in
  let data :=
    foldl (fun data r =>
             data ++ [[Text (Item r); Number (Qty r);
                       Grouped (Unit_Price r); Grouped (Total r)]])
          data (rows quote_calc) in
  if truthy (extras quote_calc) then
    foldl (fun data kv =>
             let '(k, v) := kv in
             data ++ [[Text k; Text "-"; Text "-"; Grouped v]])
          data (extras quote_calc)
  else data.

(** The "Quote Builder" page: one checkbox and one number input per entry
    of [SAMPLE_RATES.items()]; [include] and [qty_of] are the values of the
    two widgets keyed by the item name. *)
Definition select_step (include : string -> bool) (qty_of : string -> num)
    (selected_items : list selection) (entry : string * num) : list selection :=
  let '(name, rate) := entry in
  let include := include name in
  let qty := qty_of name in
  if include && (qty >? of_int 0)
  then selected_items ++ [ {| sel_name := name; sel_qty := qty; sel_unit := None |} ]
  else selected_items.

Definition quote_builder_selected_items (items : list (string * num))
    (include : string -> bool) (qty_of : string -> num) : list selection :=
  foldl (select_step include qty_of) [] items.

End Engine.

Arguments selection : clear implicits.
Arguments row : clear implicits.
Arguments extras_dict : clear implicits.
Arguments QuoteComputation : clear implicits.
Arguments cell : clear implicits.

(** ** The same call on Python objects

    [calculate_quote] receives references: to the list [selected_items]
    and the dicts in it, to the dict [extras], and it reads the global dict
    [SAMPLE_RATES].  It allocates the list [rows], a dict per row and the
    dict it returns, whose ['extras'] entry is the reference it was given.
    Reading an object of the wrong kind is the run-time error of Python
    ([None] below). *)

Definition loc := positive.

Section Heap.
Context {num : Type} `{PyNumber num}.
Local Open Scope py_scope.

(** The dict returned by the call, with references where Python has them. *)
Record quote_obj := QuoteObj {
  q_rows : loc;
  q_extras : loc;
  q_subtotal : num;
  q_discount_amt : num;
  q_taxable : num;
  q_gst_amt : num;
  q_grand_total : num;
}.

Inductive obj :=
  | ORates (d : gmap string num)
  | OSelection (it : selection num)
  | OExtras (d : extras_dict num)
  | OList (elems : list loc)
  | ORow (r : row num)
  | OQuote (q : quote_obj).

Definition heap_alloc (h : gmap loc obj) (o : obj) : gmap loc obj * loc :=
  let l := fresh (dom h) in (<[l := o]> h, l).

Definition read_rates (h : gmap loc obj) (l : loc) : option (gmap string num) :=
  match h !! l with Some (ORates d) => Some d | _ => None end.

Definition read_selection (h : gmap loc obj) (l : loc) : option (selection num) :=
  match h !! l with Some (OSelection it) => Some it | _ => None end.

Definition read_extras (h : gmap loc obj) (l : loc) : option (extras_dict num) :=
  match h !! l with Some (OExtras d) => Some d | _ => None end.

Definition read_list (h : gmap loc obj) (l : loc) : option (list loc) :=
  match h !! l with Some (OList ls) => Some ls | _ => None end.

Definition read_row (h : gmap loc obj) (l : loc) : option (row num) :=
  match h !! l with Some (ORow r) => Some r | _ => None end.

Definition read_quote (h : gmap loc obj) (l : loc) : option quote_obj :=
  match h !! l with Some (OQuote q) => Some q | _ => None end.

(** The loop body: [it] is dereferenced, the global is read, a row dict is
    allocated and [rows.append] updates the list object in place. *)
Definition quote_step_heap (SAMPLE_RATES rows : loc) (st : gmap loc obj * num) (it : loc)
  : option (gmap loc obj * num) :=
  let '(h, subtotal) := st in
  it ← read_selection h it;
  let name := sel_name it in
  let qty := sel_qty it in
  let unit := default "unit" (sel_unit it) in
  rates ← read_rates h SAMPLE_RATES;
  let rate := dict_get rates name (of_int 0) in
  let total := rate * qty in
  let '(h, r) :=
    heap_alloc h (ORow {| Item := name; Qty := qty; Unit_Price := rate; Total := total |}) in
  elems ← read_list h rows;
  Some (<[rows := OList (elems ++ [r])]> h, subtotal + total).

Fixpoint quote_loop_heap (SAMPLE_RATES rows : loc) (items : list loc)
    (st : gmap loc obj * num) : option (gmap loc obj * num) :=
  match items with
  | [] => Some st
  | it :: items =>
      st ← quote_step_heap SAMPLE_RATES rows st it;
      quote_loop_heap SAMPLE_RATES rows items st
  end.

(** The loop never writes to the list it iterates over ([rows] is a new
    object), so the elements are read once, before the first pass. *)
Definition calculate_quote_heap (h : gmap loc obj) (SAMPLE_RATES selected_items extras : loc)
    (discount_percent : num) : option (gmap loc obj * loc) :=
  let '(h, rows) := heap_alloc h (OList []) in
  items ← read_list h selected_items;
  st ← quote_loop_heap SAMPLE_RATES rows items (h, of_int 0);
  let '(h, subtotal) := st in
  ex ← read_extras h extras;
  let extras_total := if truthy ex then py_sum (ex.*2) else of_int 0 in
  let subtotal := subtotal + extras_total in
  let discount_amt := subtotal * (discount_percent / of_int 100) in
  let taxable := subtotal - discount_amt in
  let gst_amt := taxable * of_int GST_PERCENT / of_int 100 in
  let grand_total := taxable + gst_amt in
  Some (heap_alloc h (OQuote {|
    q_rows := rows;
    q_extras := extras;
    q_subtotal := subtotal;
    q_discount_amt := discount_amt;
    q_taxable := taxable;
    q_gst_amt := gst_amt;
    q_grand_total := grand_total |})).

(** The value of a returned dict: its references followed. *)
Definition quote_of_heap (h : gmap loc obj) (l : loc) : option (QuoteComputation num) :=
  q ← read_quote h l;
  elems ← read_list h (q_rows q);
  rs ← mapM (read_row h) elems;
  ex ← read_extras h (q_extras q);
  Some {| rows := rs;
          extras := ex;
          subtotal := q_subtotal q;
          discount_amt := q_discount_amt q;
          taxable := q_taxable q;
          gst_amt := q_gst_amt q;
          grand_total := q_grand_total q |}.

(** The arguments of a call as they lie in the heap [h]: the global price
    list holds [rates], the list argument holds dicts with the contents
    [items], the extras argument holds [ex]. *)
Definition inputs_at (h : gmap loc obj) (SAMPLE_RATES selected_items extras : loc)
    (rates : gmap string num) (items : list (selection num)) (ex : extras_dict num) : Prop :=
  h !! SAMPLE_RATES = Some (ORates rates) /\
  h !! extras = Some (OExtras ex) /\
  exists elems,
    h !! selected_items = Some (OList elems) /\
    Forall2 (fun l it => h !! l = Some (OSelection it)) elems items.

End Heap.

Arguments quote_obj : clear implicits.
Arguments obj : clear implicits.

(** ** Exact amounts and example inputs *)

Section ExactDefs.
Local Open Scope Q_scope.

(** The mathematical sum of a list of amounts. *)
Fixpoint Qsum (xs : list Q) : Q :=
  match xs with
  | [] => 0
  | x :: xs => x + Qsum xs
  end.

End ExactDefs.

(** A heap holding the arguments of the worked example: the price list at
    address 1, the selection dict at 2, the list of selections at 3 and the
    extras at 4. *)
Definition example_heap : gmap loc (obj Q) :=
  list_to_map [
    (1%positive, ORates {["Cement" := 420%Q]});
    (2%positive, OSelection (Selection "Cement" 10%Q None));
    (3%positive, OList [2%positive]);
    (4%positive, OExtras [("Design Fee", 1000%Q)])
  ].

(** The same contents at other addresses, next to an unrelated object. *)
Definition example_heap_moved : gmap loc (obj Q) :=
  list_to_map [
    (5%positive, OExtras [("Design Fee", 1000%Q)]);
    (6%positive, OList [9%positive]);
    (7%positive, ORates {["Cement" := 420%Q]});
    (8%positive, OExtras []);
    (9%positive, OSelection (Selection "Cement" 10%Q None))
  ].

(** ** The rest of the application: documents, pages and session *)

Section App.
Context {num : Type} `{PyNumber num}.
Local Open Scope py_scope.

(** *** The two documents *)

Inductive style := Title | Small | Heading2 | Heading3 | Normal.

(** What [generate_pdf_bytes] puts in [story]; a text is a list of pieces,
    a number formatted by [f"{x:,}"] being the piece [Grouped x]. *)
Inductive flowable :=
  | Paragraph (text : list (cell num)) (sty : style)
  | Spacer (width height : Z)
  | Table (data : list (list (cell num)))
  | PageBreak.

Definition newline : string := String (Ascii.ascii_of_nat 10) EmptyString.

Definition notes : list string := [
  "This is an indicative quotation based on current market rates and scope provided.";
  "Validity: 30 days from the date of quotation.";
  "GST and other statutory charges are extra and included above.";
  "Work will be executed as per mutually agreed contract and schedule.";
  "Advance payment: 20% at signing, milestones as per contract."
].

(** The list [story] that [generate_pdf_bytes] hands to [doc.build] (the
    rendering to bytes is reportlab's).  The dict arguments are finite
    maps: [d[k]] on a missing key is the [KeyError] ([None]),
    [d.get(k, default)] is total.  What reportlab itself raises when it
    parses a text (markup such as ["A<b"]) is outside this model, which
    describes the story of the calls that return. *)
Definition generate_pdf_bytes (company_info customer_info : gmap string string)
    (quote_calc : QuoteComputation num) (quote_meta : gmap string string)
  : option (list flowable) :=
  company_name ← company_info !! "name";
  company_address ← company_info !! "address";
  customer_name ← customer_info !! "name";
  customer_phone ← customer_info !! "phone";
  let customer_email := default "-" (customer_info !! "email") in
  quote_id ← quote_meta !! "id";
  quote_date ← quote_meta !! "date";
  let story := [
    Paragraph [Text company_name] Title;
    Paragraph [Text company_address] Small;
    Spacer 1 6;
    Paragraph [Text ("Quote for: " +:+ customer_name)] Heading2;
    Paragraph [Text ("Phone: " +:+ customer_phone +:+ " | Email: " +:+ customer_email)] Small;
    Spacer 1 6;
    Paragraph [Text ("Quote ID: " +:+ quote_id)] Small;
    Paragraph [Text ("Date: " +:+ quote_date)] Small;
    Spacer 1 12;
    Paragraph [Text "Project Summary:"] Heading3;
    Paragraph [Text (default "-" (quote_meta !! "project_summary"))] Normal;
    PageBreak;
    Paragraph [Text "Detailed Cost Breakup"] Heading2;
    Spacer 1 6;
    Table (generate_pdf_bytes_data quote_calc);
    Spacer 1 12;
    Paragraph [Text "Subtotal: ₹ "; Grouped (subtotal quote_calc)] Normal;
    Paragraph [Text "Discount: ₹ "; Grouped (discount_amt quote_calc)] Normal;
    Paragraph [Text "Taxable Amount: ₹ "; Grouped (taxable quote_calc)] Normal;
    Paragraph [Text ("GST (" +:+ pretty GST_PERCENT +:+ "%): ₹ ");
               Grouped (gst_amt quote_calc)] Normal;
    Paragraph [Text "Grand Total: ₹ "; Grouped (grand_total quote_calc)] Heading3;
    PageBreak;
    Paragraph [Text "Terms & Conditions"] Heading2
  ] in
  let story :=
    foldl (fun story n => story ++ [Paragraph [Text ("• " +:+ n)] Normal; Spacer 1 4])
          story notes in
  let story := story ++ [
    Spacer 1 12;
    Paragraph [Text "Estimate Timeline:"] Heading3;
    Paragraph [Text (default "To be decided" (quote_meta !! "timeline"))] Normal;
    Spacer 1 12;
    PageBreak;
    Paragraph [Text "Approval"] Heading2;
    Spacer 1 12;
    Paragraph [Text "Customer Signature: ____________________"] Normal;
    Spacer 1 36
  ] in
  company_name' ← company_info !! "name";
  Some (story ++ [Paragraph [Text (company_name' +:+ newline +:+ "Authorized Signatory")] Normal]).

(** A sheet as [to_excel(index=False)] writes a DataFrame: the column
    names, then the lines. *)
Record sheet := Sheet {
  sheet_name : string;
  columns : list string;
  lines : list (list (cell num));
}.

(** [pd.DataFrame(rows)]: the columns are the keys of the dicts, and a
    frame made from an empty list has no column. *)
Definition rows_frame (rs : list (row num)) : list string * list (list (cell num)) :=
  (if truthy rs then ["Item"; "Qty"; "Unit Price (₹)"; "Total (₹)"] else [],
   (fun r => [Text (Item r); Number (Qty r); Number (Unit_Price r); Number (Total r)]) <$> rs).

(** The sheets that [generate_excel_bytes] writes, in order.  The series
    [extras] it builds first is never written.  [None] is the [KeyError]
    of a missing entry; what openpyxl itself raises on a text (a control
    character) is outside this model, which describes the workbook of the
    calls that return. *)
Definition generate_excel_bytes (company_info customer_info : gmap string string)
    (quote_calc : QuoteComputation num) (quote_meta : gmap string string)
  : option (list sheet) :=
  let df := rows_frame (rows quote_calc) in
  let extras_series := if truthy (extras quote_calc) then extras quote_calc else [] in
  let items := {| sheet_name := "Items"; columns := df.1; lines := df.2 |} in
  let summary := {|
    sheet_name := "Summary";
    columns := ["Description"; "Amount (₹)"];
    lines := [
      [Text "Subtotal"; Number (subtotal quote_calc)];
      [Text "Discount"; Number (discount_amt quote_calc)];
      [Text "Taxable"; Number (taxable quote_calc)];
      [Text ("GST (" +:+ pretty GST_PERCENT +:+ "%)"); Number (gst_amt quote_calc)];
      [Text "Grand Total"; Number (grand_total quote_calc)]
    ] |} in
  company_name ← company_info !! "name";
  company_address ← company_info !! "address";
  customer_name ← customer_info !! "name";
  customer_phone ← customer_info !! "phone";
  quote_id ← quote_meta !! "id";
  quote_date ← quote_meta !! "date";
  let info := {|
    sheet_name := "Info";
    columns := ["Company"; "Company Address"; "Customer"; "Customer Phone"; "Quote ID"; "Date"];
    lines := [[Text company_name; Text company_address; Text customer_name;
               Text customer_phone; Text quote_id; Text quote_date]] |} in
  Some [items; summary; info].

(** Readers of a story and of a quote, to state what the documents hold. *)
Definition is_page_break (f : flowable) : bool :=
  match f with
  | PageBreak => true
  | _ => false
  end.

Definition table_of (f : flowable) : option (list (list (cell num))) :=
  match f with
  | Table data => Some data
  | _ => None
  end.

Definition with_extras (q : QuoteComputation num) (ex : extras_dict num)
  : QuoteComputation num :=
  {| rows := rows q;
     extras := ex;
     subtotal := subtotal q;
     discount_amt := discount_amt q;
     taxable := taxable q;
     gst_amt := gst_amt q;
     grand_total := grand_total q |}.

(** *** Session state and the sidebar *)

(** An entry of [st.session_state.my_quotes]. *)
Record quote_record := QuoteRecord {
  meta : gmap string string;
  customer : gmap string string;
  calc : QuoteComputation num;
}.

(** [st.session_state] once the two defaults are set; ['my_quotes'] is
    absent until the first quote is saved. *)
Record session := Session {
  logged_in : bool;
  username : string;
  my_quotes : option (list quote_record);
}.

Definition new_session : session :=
  {| logged_in := false; username := ""; my_quotes := None |}.

(** The widgets of the sidebar in one run of the script. *)
Record sidebar := Sidebar {
  logout_button : bool;
  username_input : string;
  password_input : string;
  login_button : bool;
}.

Inductive sidebar_message :=
  | SidebarSuccess (text : string)
  | SidebarError (text : string).

(** [login_widget]: the session it leaves, what it shows, and whether it
    asked for a rerun. *)
Definition login_widget (s : session) (w : sidebar)
  : session * list sidebar_message * bool :=
  if logged_in s then
    let shown := [SidebarSuccess ("Logged in as " +:+ username s)] in
    if logout_button w then
      ({| logged_in := false; username := ""; my_quotes := my_quotes s |}, shown, true)
    else (s, shown, false)
  else
    let username := username_input w in
    let password := password_input w in
    if login_button w then
      if String.eqb username "admin" && String.eqb password "admin" then
        ({| logged_in := true; username := username; my_quotes := my_quotes s |},
         [SidebarSuccess "Login successful"], true)
      else (s, [SidebarError "Invalid credentials"], false)
    else (s, [], false).

(** The saved quotes of a session, none when the key is absent. *)
Definition saved_quotes (s : session) : list quote_record :=
  default [] (my_quotes s).

(** The entries that the My Quotes page and the documents read with
    [d[k]] from a saved quote. *)
Definition record_keys_present (q : quote_record) : Prop :=
  is_Some (meta q !! "id") /\ is_Some (meta q !! "date") /\
  is_Some (customer q !! "name") /\ is_Some (customer q !! "phone").

(** The session after the sidebar has run once for each element of [ws]
    (the script runs again on every interaction). *)
Definition after_sidebar_runs (s : session) (ws : list sidebar) : session :=
  foldl (fun s w => (login_widget s w).1.1) s ws.

(** *** The Admin page *)

(** One pass of [for name in list(SAMPLE_RATES.keys())]: the number input
    gives the value typed under the key of [name], or its default, the
    current rate ([float(x)] is [x] as a number);
    [SAMPLE_RATES[name]] on a missing key is the [KeyError]. *)
Definition admin_rates_step (rate_input : string -> option num)
    (st : option (gmap string num)) (name : string) : option (gmap string num) :=
  rates ← st;
  current ← rates !! name;
  let new_rate := default current (rate_input name) in
  Some (<[name := new_rate]> rates).

(** [d[k] = text_input(value=d[k])] *)
Definition edit_text (typed : option string) (k : string) (d : gmap string string)
  : option (gmap string string) :=
  current ← d !! k;
  Some (<[k := default current typed]> d).

(** The Admin page on the globals [SAMPLE_RATES] and [company_info];
    [keys] is [list(SAMPLE_RATES.keys())]. *)
Definition admin_page (s : session) (rates : gmap string num) (keys : list string)
    (company_info : gmap string string)
    (rate_input : string -> option num) (name_input address_input : option string)
  : option (gmap string num * gmap string string) :=
  if negb (logged_in s) then Some (rates, company_info)
  else
    rates ← foldl (admin_rates_step rate_input) (Some rates) keys;
    company_info ← edit_text name_input "name" company_info;
    company_info ← edit_text address_input "address" company_info;
    Some (rates, company_info).

(** *** The Quote Builder page *)

(** [d[k] = v] on a dict kept in insertion order. *)
Fixpoint dict_set (d : extras_dict num) (k : string) (v : num) : extras_dict num :=
  match d with
  | [] => [(k, v)]
  | (k', v') :: d' =>
      if String.eqb k' k then (k', v) :: d' else (k', v') :: dict_set d' k v
  end.

Definition quote_builder_extras (design_fee misc : num) : extras_dict num :=
  let extras := [] in
  let extras := if design_fee >? of_int 0 then dict_set extras "Design Fee" design_fee
                else extras in
  let extras := if misc >? of_int 0 then dict_set extras "Misc Charges" misc else extras in
  extras.

(** The values of the widgets of the form. *)
Record quote_form := QuoteForm {
  cname : string;
  cphone : string;
  cemail : string;
  project_summary : string;
  timeline : string;
  inc_widget : string -> bool;
  qty_widget : string -> num;
  design_fee : num;
  misc : num;
  discount : num;
  submit : bool;
}.

Inductive page_result :=
  | NotSubmitted
  | FormError (message : string)
  | QuoteGenerated (record : quote_record) (pdf : list flowable) (excel : list sheet).

(** [not s] for a string. *)
Definition is_empty (s : string) : bool :=
  match s with
  | EmptyString => true
  | String _ _ => false
  end.

(** The page on the session and the globals.  [SAMPLE_RATES] is given as
    its items in insertion order; [stamp] and [today] are the two results
    of [datetime.now().strftime].  What the page only displays is left
    out.  [None] is a run that a [KeyError] ended; a run ended by an
    error of reportlab or openpyxl is not told apart from it here, so the
    properties of the page are stated for the runs that complete. *)
Definition quote_builder_page (s : session) (SAMPLE_RATES : list (string * num))
    (company_info : gmap string string) (stamp today : string) (f : quote_form)
  : option (session * page_result) :=
  let selected_items :=
    quote_builder_selected_items SAMPLE_RATES (inc_widget f) (qty_widget f) in
  if negb (submit f) then Some (s, NotSubmitted)
  else if is_empty (cname f) || is_empty (cphone f) then
    Some (s, FormError "Please enter customer name and phone number.")
  else if (length selected_items =? 0)%nat then
    Some (s, FormError "Please include at least one item in the quote.")
  else
    let extras := quote_builder_extras (design_fee f) (misc f) in
    let quote_meta : gmap string string :=
      <["timeline" := timeline f]> (<["project_summary" := project_summary f]>
        (<["date" := today]> (<["id" := "HYD-" +:+ stamp]> ∅))) in
    let quote_calc :=
      calculate_quote (list_to_map SAMPLE_RATES) selected_items extras (discount f) in
    let customer_info : gmap string string :=
      <["email" := cemail f]> (<["phone" := cphone f]> (<["name" := cname f]> ∅)) in
    pdf_bytes ← generate_pdf_bytes company_info customer_info quote_calc quote_meta;
    excel_bytes ← generate_excel_bytes company_info customer_info quote_calc quote_meta;
    let saved := default [] (my_quotes s) in
    let record := {| meta := quote_meta; customer := customer_info; calc := quote_calc |} in
    Some ({| logged_in := logged_in s;
             username := username s;
             my_quotes := Some (saved ++ [record]) |},
          QuoteGenerated record pdf_bytes excel_bytes).

(** *** The My Quotes page *)

Record expander := Expander {
  label : list (cell num);
  shown_rows : list (row num);
  pdf_download : list flowable;
  excel_download : list sheet;
}.

Definition my_quotes_entry (company_info : gmap string string) (q : quote_record)
  : option expander :=
  quote_id ← meta q !! "id";
  customer_name ← customer q !! "name";
  let label := [Text (quote_id +:+ " — " +:+ customer_name +:+ " — ₹ ");
                Grouped (grand_total (calc q))] in
  pdf_bytes ← generate_pdf_bytes company_info (customer q) (calc q) (meta q);
  excel_bytes ← generate_excel_bytes company_info (customer q) (calc q) (meta q);
  Some {| label := label;
          shown_rows := rows (calc q);
          pdf_download := pdf_bytes;
          excel_download := excel_bytes |}.

(** [None] inside is the notice shown when there is no quote; [None]
    outside is a run that a [KeyError] ended.  Streamlit's own errors
    (two download buttons with the same label and arguments) are outside
    this model: the properties of the page are stated for the runs that
    render. *)
Definition my_quotes_page (s : session) (company_info : gmap string string)
  : option (option (list expander)) :=
  match my_quotes s with
  | None => Some None
  | Some qs =>
      if (length qs =? 0)%nat then Some None
      else xs ← mapM (my_quotes_entry company_info) (reverse qs); Some (Some xs)
  end.

End App.

Arguments flowable : clear implicits.
Arguments sheet : clear implicits.
Arguments quote_record : clear implicits.
Arguments session : clear implicits.
Arguments quote_form : clear implicits.
Arguments page_result : clear implicits.
Arguments expander : clear implicits.

(** Example inputs of the pages: a price list of two items, company
    details, a filled form and a sidebar with the right credentials. *)
Definition example_catalog : list (string * Q) :=
  [("Cement", 420%Q); ("Sand", 1500%Q)].

Definition example_company_info : gmap string string :=
  <["address" := "Banjara Hills"]> (<["name" := "Hyderabad Builders"]> ∅).

Definition example_form : quote_form Q :=
  {| cname := "Ramesh";
     cphone := "040";
     cemail := "";
     project_summary := "Renovation";
     timeline := "3 months";
     inc_widget := fun name => String.eqb name "Cement";
     qty_widget := fun _ => 10%Q;
     design_fee := 1000%Q;
     misc := 0%Q;
     discount := 10%Q;
     submit := true |}.

Definition example_login : sidebar :=
  {| logout_button := false;
     username_input := "admin";
     password_input := "admin";
     login_button := true |}.

(** ** The call on Python numbers *)

(** The result of [calculate_quote] on Python numbers: the exception of the
    first operation that raised, or else the dict.  An amount that raised
    makes every amount computed from it raise, the grand total last. *)
Definition calculate_quote_outcome (rates : gmap string pynum)
    (selected_items : list (selection pynum)) (extras : extras_dict pynum)
    (discount_percent : pynum) : py_error + QuoteComputation pynum :=
  let q := calculate_quote rates selected_items extras discount_percent in
  match grand_total q with
  | PyRaise e => inl e
  | _ => inr q
  end.

(** A Python number read as a binary64: a [float] as it is, an [int]
    through [float(_)]. *)
Definition to_binary64 (x : pynum) : float :=
  match x with
  | PyInt z => float_of_int z
  | PyFloat f => f
  | PyRaise _ => nan
  end.

Definition selection_to_binary64 (it : selection pynum) : selection float :=
  {| sel_name := sel_name it;
     sel_qty := to_binary64 (sel_qty it);
     sel_unit := sel_unit it |}.

Definition row_to_binary64 (r : row pynum) : row float :=
  {| Item := Item r;
     Qty := to_binary64 (Qty r);
     Unit_Price := to_binary64 (Unit_Price r);
     Total := to_binary64 (Total r) |}.

Definition extras_to_binary64 (ex : extras_dict pynum) : extras_dict float :=
  (fun kv => (kv.1, to_binary64 kv.2)) <$> ex.

Definition quote_to_binary64 (q : QuoteComputation pynum) : QuoteComputation float :=
  {| rows := row_to_binary64 <$> rows q;
     extras := extras_to_binary64 (extras q);
     subtotal := to_binary64 (subtotal q);
     discount_amt := to_binary64 (discount_amt q);
     taxable := to_binary64 (taxable q);
     gst_amt := to_binary64 (gst_amt q);
     grand_total := to_binary64 (grand_total q) |}.

Definition is_float (x : pynum) : bool :=
  match x with
  | PyFloat _ => true
  | _ => false
  end.

(** A rate: a [float], or an [int] that [float(_)] converts. *)
Definition is_rate (x : pynum) : bool :=
  match x with
  | PyFloat _ => true
  | PyInt z => negb (is_infinity (float_of_int z))
  | PyRaise _ => false
  end.

Definition raised (x : pynum) : bool :=
  match x with
  | PyRaise _ => true
  | _ => false
  end.

(** The numbers the app passes to [calculate_quote]: quantities, extra
    charges and the discount are the [float]s of [st.number_input]; the
    rates are the [int]s of the file or the [float]s typed on the Admin
    page. *)
Definition app_inputs (rates : gmap string pynum) (items : list (selection pynum))
    (ex : extras_dict pynum) (d : pynum) : Prop :=
  (forall name rate, rates !! name = Some rate -> is_rate rate = true) /\
  Forall (fun it => is_float (sel_qty it) = true) items /\
  Forall (fun kv => is_float kv.2 = true) ex /\
  is_float d = true.

(** No line and no amount of the quote is an exception. *)
Definition no_amount_raised (q : QuoteComputation pynum) : Prop :=
  Forall (fun r => raised (Unit_Price r) = false /\ raised (Total r) = false) (rows q) /\
  raised (subtotal q) = false /\ raised (discount_amt q) = false /\
  raised (taxable q) = false /\ raised (gst_amt q) = false /\
  raised (grand_total q) = false.

(** [float(x)] succeeds. *)
Definition converts (x : pynum) : Prop := as_float x = inr (to_binary64 x).

(** A running sum: the [int] 0 it starts from, or a [float]. *)
Definition zero_or_float (x : pynum) : Prop := x = PyInt 0 \/ is_float x = true.

(** ** Binary64 amounts *)

(** [math.isfinite(x) and 0 <= x] *)
Definition finite_nonneg (x : float) : Prop :=
  is_finite x = true /\ (0 <=? x)%float = true.

(** Inputs without a negative, infinite or nan price, quantity or extra
    charge. *)
Definition finite_nonneg_inputs (rates : gmap string float) (items : list (selection float))
    (ex : extras_dict float) : Prop :=
  (forall name rate, rates !! name = Some rate -> finite_nonneg rate) /\
  Forall (fun it => finite_nonneg (sel_qty it)) items /\
  Forall (fun kv => finite_nonneg kv.2) ex.

(** *** Notions of the format, for the proofs about rounding *)

(** Some bit was shifted out of the mantissa. *)
Definition inexact (r : shr_record) : bool := shr_r r || shr_s r.

Definition bias : Z := 5000.

(** [zval m e] is the number [m * 2^e], scaled by [2^bias] so that it is an
    integer at every exponent that occurs. *)
Definition zval (m e : Z) : Z := (m * 2 ^ (e + bias))%Z.

Definition sf_nonneg (x : spec_float) : bool :=
  match x with
  | S754_zero _ | S754_finite false _ _ | S754_infinity false => true
  | _ => false
  end.

Definition sf_nonpos (x : spec_float) : bool :=
  match x with
  | S754_zero _ | S754_finite true _ _ | S754_infinity true => true
  | _ => false
  end.

Definition sf_finite (x : spec_float) : bool :=
  match x with
  | S754_zero _ | S754_finite _ _ _ => true
  | _ => false
  end.

Definition sf_zero (x : spec_float) : bool :=
  match x with
  | S754_zero _ => true
  | _ => false
  end.

(** * Properties *)

(** ** Binary64 arithmetic: rounding to nearest

    The operations of [float] are specified by the functions of [SpecFloat]
    (the axioms of [FloatAxioms]).  The lemmas below read those functions
    on non-negative numbers: a rounded result has the sign asked for, and
    it never passes a representable number that bounds the exact value. *)

Section Binary64.
Local Open Scope Z_scope.

Abbreviation fexp64 := (SpecFloat.fexp prec emax).

Lemma fexp64_eq e : fexp64 e = Z.max (e - 53) (-1074).
Proof. reflexivity. Qed.

Lemma digits2_pos_bounds p :
  2 ^ (Z.pos (digits2_pos p) - 1) <= Z.pos p < 2 ^ Z.pos (digits2_pos p).
Proof.
  induction p as [p IH|p IH|]; cbn [digits2_pos].
  - rewrite Pos2Z.inj_succ.
    replace (Z.succ (Z.pos (digits2_pos p)) - 1) with (Z.succ (Z.pos (digits2_pos p) - 1)) by lia.
    rewrite !Z.pow_succ_r by lia. lia.
  - rewrite Pos2Z.inj_succ.
    replace (Z.succ (Z.pos (digits2_pos p)) - 1) with (Z.succ (Z.pos (digits2_pos p) - 1)) by lia.
    rewrite !Z.pow_succ_r by lia. lia.
  - cbn. lia.
Qed.

Lemma Zdigits2_nonneg m : 0 <= Zdigits2 m.
Proof. destruct m; cbn; lia. Qed.

Lemma Zdigits2_bounds m :
  0 < m -> 2 ^ (Zdigits2 m - 1) <= m < 2 ^ Zdigits2 m.
Proof.
  destruct m as [|p|p]; try lia. intros _. apply digits2_pos_bounds.
Qed.

Lemma Zdigits2_ge m k : 2 ^ k <= m -> 0 <= k -> k + 1 <= Zdigits2 m.
Proof.
  intros Hle Hk.
  assert (0 < 2 ^ k) by (apply Z.pow_pos_nonneg; lia).
  destruct (Zdigits2_bounds m) as [_ Hhi]; [lia|].
  destruct (Z_lt_le_dec (Zdigits2 m) (k + 1)) as [Hlt|]; [|lia].
  assert (2 ^ Zdigits2 m <= 2 ^ k) by (apply Z.pow_le_mono_r; lia).
  lia.
Qed.

(** [iter_pos] is iteration [Pos.to_nat p] times. *)
Lemma iter_pos_nat {A : Type} (f : A -> A) p x :
  SpecFloat.iter_pos f p x = Nat.iter (Pos.to_nat p) f x.
Proof.
  revert x. induction p as [p IH|p IH|]; intros x; cbn [SpecFloat.iter_pos].
  - rewrite !IH, Pos2Nat.inj_xI.
    replace (S (2 * Pos.to_nat p)) with (Pos.to_nat p + (Pos.to_nat p + 1))%nat by lia.
    rewrite !Nat.iter_add. reflexivity.
  - rewrite !IH, Pos2Nat.inj_xO.
    replace (2 * Pos.to_nat p)%nat with (Pos.to_nat p + Pos.to_nat p)%nat by lia.
    rewrite Nat.iter_add. reflexivity.
  - reflexivity.
Qed.

Lemma shr_1_spec r :
  0 <= shr_m r ->
  shr_m (shr_1 r) = shr_m r / 2 /\
  (inexact r = false -> shr_m r = 2 * (shr_m r / 2) -> inexact (shr_1 r) = false).
Proof.
  destruct r as [m r s]. cbn [shr_m]. intros Hm.
  destruct m as [|[p|p|]|p]; try lia; unfold inexact; cbn [shr_1 shr_m shr_r shr_s].
  - split; [reflexivity|]. intros H _. rewrite H. reflexivity.
  - split.
    + rewrite Pos2Z.inj_xI. apply (Z.div_unique _ _ _ 1); lia.
    + intros _ Heq. exfalso.
      assert (Z.pos p~1 / 2 = Z.pos p) by (rewrite Pos2Z.inj_xI; symmetry; apply (Z.div_unique _ _ _ 1); lia).
      lia.
  - split.
    + rewrite Pos2Z.inj_xO. apply (Z.div_unique _ _ _ 0); lia.
    + intros H _. rewrite H. reflexivity.
  - split; [reflexivity|]. intros _ Heq. exfalso. cbn in Heq. lia.
Qed.

Lemma shr_iter_spec k r :
  0 <= shr_m r ->
  let r' := Nat.iter k shr_1 r in
  shr_m r' = shr_m r / 2 ^ Z.of_nat k /\
  (inexact r = false -> shr_m r = shr_m r' * 2 ^ Z.of_nat k -> inexact r' = false).
Proof.
  intros Hm. induction k as [|k IH].
  - cbn. split; [rewrite Z.div_1_r; reflexivity|]. intros ? _. assumption.
  - cbn zeta in *. destruct IH as [IHm IHe].
    change (Nat.iter (S k) shr_1 r) with (shr_1 (Nat.iter k shr_1 r)).
    set (rk := Nat.iter k shr_1 r) in *.
    assert (Hpow : 0 < 2 ^ Z.of_nat k) by (apply Z.pow_pos_nonneg; lia).
    assert (Hrk : 0 <= shr_m rk) by (rewrite IHm; apply Z.div_pos; lia).
    destruct (shr_1_spec rk Hrk) as [Hm1 He1].
    rewrite Nat2Z.inj_succ, Z.pow_succ_r by lia.
    split.
    + rewrite Hm1, IHm, Z.div_div by lia. f_equal. lia.
    + intros Hin Heq.
      assert (Hdiv : shr_m rk = 2 * shr_m (shr_1 rk)).
      { rewrite IHm. rewrite Heq at 1.
        replace (shr_m (shr_1 rk) * (2 * 2 ^ Z.of_nat k))
          with ((2 * shr_m (shr_1 rk)) * 2 ^ Z.of_nat k) by lia.
        apply Z.div_mul. lia. }
      apply He1.
      * apply IHe; [assumption|]. rewrite Heq, Hdiv. lia.
      * rewrite <- Hm1. exact Hdiv.
Qed.

(** What [shr] does to a non-negative mantissa. *)
Lemma shr_spec r e n :
  0 <= shr_m r ->
  let '(r', e') := shr r e n in
  e' = e + Z.max n 0 /\
  shr_m r' = shr_m r / 2 ^ Z.max n 0 /\
  (inexact r = false -> shr_m r = shr_m r' * 2 ^ Z.max n 0 -> inexact r' = false).
Proof.
  intros Hm. destruct n as [|p|p]; cbn [shr].
  - cbn. split; [lia|]. split; [rewrite Z.div_1_r; reflexivity|]. intros ? _; assumption.
  - rewrite iter_pos_nat.
    pose proof (shr_iter_spec (Pos.to_nat p) r Hm) as Hs. cbn zeta in Hs.
    rewrite positive_nat_Z in Hs.
    replace (Z.max (Z.pos p) 0) with (Z.pos p) by lia.
    split; [reflexivity|]. exact Hs.
  - cbn. split; [lia|]. split; [rewrite Z.div_1_r; reflexivity|]. intros ? _; assumption.
Qed.

Lemma shr_record_of_loc_m m l : shr_m (shr_record_of_loc m l) = m.
Proof. destruct l as [|[]]; reflexivity. Qed.

Lemma inexact_shr_record_of_loc m l :
  inexact (shr_record_of_loc m l) = false <-> l = loc_Exact.
Proof. destruct l as [|[]]; cbn; split; congruence. Qed.

Lemma shr_fexp_spec m e l :
  0 <= m ->
  let '(r', e') := shr_fexp prec emax m e l in
  let n := Z.max (fexp64 (Zdigits2 m + e) - e) 0 in
  e' = e + n /\
  shr_m r' = m / 2 ^ n /\
  (l = loc_Exact -> m = shr_m r' * 2 ^ n -> inexact r' = false).
Proof.
  intros Hm. unfold shr_fexp.
  pose proof (shr_spec (shr_record_of_loc m l) e (fexp64 (Zdigits2 m + e) - e)) as Hs.
  rewrite shr_record_of_loc_m in Hs. specialize (Hs Hm).
  destruct (shr _ _ _) as [r' e'].
  destruct Hs as (He & Hm' & Hex).
  split; [exact He|]. split; [exact Hm'|].
  intros Hl. apply Hex. apply inexact_shr_record_of_loc. exact Hl.
Qed.

Lemma round_nearest_even_bounds r :
  shr_m r <= round_nearest_even (shr_m r) (loc_of_shr_record r) <= shr_m r + 1 /\
  (inexact r = false -> round_nearest_even (shr_m r) (loc_of_shr_record r) = shr_m r).
Proof.
  destruct r as [m [] []]; cbn; try destruct (Z.even m); split; try lia; try congruence.
Qed.


(** *** Values as scaled integers *)

Lemma pow2_pos k : 0 <= k -> 0 < 2 ^ k.
Proof. intros; apply Z.pow_pos_nonneg; lia. Qed.

Lemma zval_scale m e n :
  0 <= n -> 0 <= e + bias -> zval (m * 2 ^ n) e = zval m (e + n).
Proof.
  intros Hn He. unfold zval.
  replace (e + n + bias) with (n + (e + bias)) by lia.
  rewrite (Z.pow_add_r 2 n (e + bias)) by lia. ring.
Qed.

Lemma zval_le_cancel a b e : 0 <= e + bias -> zval a e <= zval b e <-> a <= b.
Proof.
  intros He. unfold zval. pose proof (pow2_pos (e + bias) He). split; intros; nia.
Qed.

Lemma zval_nonneg m e : 0 <= m -> 0 <= e + bias -> 0 <= zval m e.
Proof. intros Hm He. unfold zval. pose proof (pow2_pos (e + bias) He). nia. Qed.

Lemma zval_digits m e :
  0 < m -> 0 <= e + bias ->
  2 ^ (Zdigits2 m - 1 + (e + bias)) <= zval m e < 2 ^ (Zdigits2 m + (e + bias)).
Proof.
  intros Hm He. unfold zval.
  destruct (Zdigits2_bounds m Hm) as [Hlo Hhi].
  assert (1 <= Zdigits2 m).
  { destruct m; try lia. cbn. lia. }
  rewrite (Z.pow_add_r 2 (Zdigits2 m - 1) (e + bias)) by lia.
  rewrite (Z.pow_add_r 2 (Zdigits2 m) (e + bias)) by lia.
  pose proof (pow2_pos (e + bias) He). nia.
Qed.

Lemma div_pow2_ge m d n : 2 ^ d <= m -> 0 <= n <= d -> 2 ^ (d - n) <= m / 2 ^ n.
Proof.
  intros Hm Hn.
  pose proof (pow2_pos n ltac:(lia)) as Hp.
  apply Z.div_le_lower_bound; [lia|].
  rewrite <- Z.pow_add_r by lia. replace (n + (d - n)) with d by lia. exact Hm.
Qed.

Lemma div_pow2_le m n : 0 <= m -> 0 <= n -> m / 2 ^ n * 2 ^ n <= m.
Proof.
  intros Hm Hn. pose proof (pow2_pos n Hn).
  rewrite Z.mul_comm. apply Z.mul_div_le. lia.
Qed.

(** *** Valid binary64 numbers *)

Lemma bounded_spec m e :
  bounded prec emax m e = true ->
  -1074 <= e <= 971 /\ Z.pos (digits2_pos m) <= 53 /\
  (-1074 < e -> Z.pos (digits2_pos m) = 53) /\
  fexp64 (Z.pos (digits2_pos m) + e) = e.
Proof.
  unfold bounded, canonical_mantissa. intros H.
  apply andb_prop in H as [Hc He].
  apply Z.eqb_eq in Hc. apply Z.leb_le in He.
  change (emax - prec) with 971 in He.
  pose proof Hc as Hc'. rewrite fexp64_eq in Hc'. lia.
Qed.

Lemma zval_bounded_lt m e :
  bounded prec emax m e = true -> zval (Z.pos m) e < 2 ^ (1024 + bias).
Proof.
  intros Hb. destruct (bounded_spec m e Hb) as (He & Hd & _).
  destruct (zval_digits (Z.pos m) e) as [_ Hhi]; [lia|unfold bias; lia|].
  cbn [Zdigits2] in Hhi.
  assert (2 ^ (Z.pos (digits2_pos m) + (e + bias)) <= 2 ^ (1024 + bias))
    by (apply Z.pow_le_mono_r; unfold bias; lia).
  lia.
Qed.

(** On valid non-negative numbers the comparison of the format is the
    comparison of the values. *)
Lemma SFleb_finite_nonneg m1 e1 m2 e2 :
  bounded prec emax m1 e1 = true -> bounded prec emax m2 e2 = true ->
  SFleb (S754_finite false m1 e1) (S754_finite false m2 e2) = true <->
  zval (Z.pos m1) e1 <= zval (Z.pos m2) e2.
Proof.
  intros Hb1 Hb2.
  destruct (bounded_spec m1 e1 Hb1) as (He1 & Hd1 & Hn1 & _).
  destruct (bounded_spec m2 e2 Hb2) as (He2 & Hd2 & Hn2 & _).
  assert (Hstrict : forall ma ea mb eb,
    -1074 <= ea -> ea < eb -> eb <= 971 ->
    Z.pos (digits2_pos ma) <= 53 -> Z.pos (digits2_pos mb) = 53 ->
    zval (Z.pos ma) ea < zval (Z.pos mb) eb).
  { intros ma ea mb eb Hea Hlt Heb Hda Hdb.
    destruct (zval_digits (Z.pos ma) ea) as [_ Hhi]; [lia|unfold bias; lia|].
    destruct (zval_digits (Z.pos mb) eb) as [Hlo _]; [lia|unfold bias; lia|].
    cbn [Zdigits2] in *. rewrite Hdb in Hlo.
    assert (2 ^ (Z.pos (digits2_pos ma) + (ea + bias)) <= 2 ^ (53 - 1 + (eb + bias)))
      by (apply Z.pow_le_mono_r; unfold bias; lia).
    lia. }
  unfold SFleb, SFcompare.
  destruct (Z.compare_spec e1 e2) as [Heq|Hlt|Hgt].
  - subst e2. rewrite zval_le_cancel by (unfold bias; lia).
    change (Pos.compare_cont Eq m1 m2) with (Pos.compare m1 m2).
    destruct (Pos.compare_spec m1 m2); split; intros; try lia; try discriminate; reflexivity.
  - pose proof (Hstrict m1 e1 m2 e2). split; intros; [lia|reflexivity].
  - pose proof (Hstrict m2 e2 m1 e1). split; intros; [discriminate|lia].
Qed.

(** *** Rounding never passes a representable bound *)

Lemma binary_round_aux_le mx ex lx mf ef :
  0 <= mx -> 0 <= ex + bias ->
  ex <= fexp64 (Zdigits2 mx + ex) ->
  bounded prec emax mf ef = true ->
  zval mx ex <= zval (Z.pos mf) ef ->
  (lx <> loc_Exact -> zval mx ex < zval (Z.pos mf) ef) ->
  match binary_round_aux prec emax false mx ex lx with
  | S754_zero s => s = false
  | S754_finite s m e => s = false /\ zval (Z.pos m) e <= zval (Z.pos mf) ef
  | _ => False
  end.
Proof.
  intros Hmx Hex Hcan Hb Hle Hlt.
  destruct (bounded_spec mf ef Hb) as (Hef & Hdf & _ & Hcf).
  unfold binary_round_aux.
  pose proof (shr_fexp_spec mx ex lx Hmx) as H1.
  destruct (shr_fexp prec emax mx ex lx) as [r1 e1].
  cbn zeta in H1. destruct H1 as (He1 & Hm1 & Hx1).
  replace (Z.max (fexp64 (Zdigits2 mx + ex) - ex) 0)
    with (fexp64 (Zdigits2 mx + ex) - ex) in * by lia.
  set (n := fexp64 (Zdigits2 mx + ex) - ex) in *.
  assert (Hn : 0 <= n) by (unfold n; lia).
  assert (He1' : e1 = fexp64 (Zdigits2 mx + ex)) by (unfold n in He1; lia).
  pose proof (pow2_pos n Hn) as Hpn.
  assert (Hr1 : 0 <= shr_m r1) by (rewrite Hm1; apply Z.div_pos; lia).
  destruct (round_nearest_even_bounds r1) as [Hrb Hrx].
  set (rnd := round_nearest_even (shr_m r1) (loc_of_shr_record r1)) in *.
  assert (Hrnd : 0 <= rnd) by lia.
  pose proof (shr_fexp_spec rnd e1 loc_Exact Hrnd) as H2.
  destruct (shr_fexp prec emax rnd e1 loc_Exact) as [r2 e2].
  cbn zeta in H2. destruct H2 as (He2 & Hm2 & _).
  set (n2 := Z.max (fexp64 (Zdigits2 rnd + e1) - e1) 0) in *.
  assert (Hn2 : 0 <= n2) by (unfold n2; lia).
  pose proof (pow2_pos n2 Hn2) as Hpn2.
  assert (Hr2 : 0 <= shr_m r2) by (rewrite Hm2; apply Z.div_pos; lia).
  assert (He1b : 0 <= e1 + bias) by lia.
  (* the bound is a multiple of the unit of the result *)
  assert (Hge : e1 <= ef).
  { destruct (Z.eq_dec mx 0) as [->|Hne].
    - cbn [Zdigits2] in He1'. rewrite fexp64_eq in He1'.
      cbn [Zdigits2] in Hcan. rewrite fexp64_eq in Hcan. lia.
    - destruct (zval_digits mx ex) as [Hlo _]; [lia|lia|].
      destruct (zval_digits (Z.pos mf) ef) as [_ Hhi]; [lia|unfold bias; lia|].
      cbn [Zdigits2] in Hhi.
      assert (Zdigits2 mx - 1 + (ex + bias) < Z.pos (digits2_pos mf) + (ef + bias)).
      { apply (Z.pow_lt_mono_r_iff 2); [lia|unfold bias; lia|lia]. }
      rewrite He1', <- Hcf, !fexp64_eq. lia. }
  set (F := Z.pos mf * 2 ^ (ef - e1)).
  assert (HF : zval (Z.pos mf) ef = zval F e1).
  { unfold F. rewrite zval_scale by lia. f_equal. lia. }
  assert (Hm1le : zval (shr_m r1) e1 <= zval mx ex).
  { replace e1 with (ex + n) by lia. rewrite <- zval_scale by lia.
    apply zval_le_cancel; [lia|]. rewrite Hm1. apply div_pow2_le; lia. }
  assert (Hrnd_le : zval rnd e1 <= zval (Z.pos mf) ef).
  { rewrite HF. apply zval_le_cancel; [lia|].
    assert (Hle1 : shr_m r1 <= F).
    { apply (zval_le_cancel _ _ e1); [lia|]. rewrite <- HF. lia. }
    destruct (inexact r1) eqn:Hin.
    - assert (shr_m r1 <> F); [|lia].
      intros HeqF.
      assert (Heqv : zval mx ex = zval (Z.pos mf) ef).
      { rewrite HF, <- HeqF. rewrite HF, <- HeqF in Hle. lia. }
      assert (Hl : lx = loc_Exact).
      { destruct lx as [|c]; [reflexivity|]. exfalso.
        assert (zval mx ex < zval (Z.pos mf) ef) by (apply Hlt; discriminate). lia. }
      assert (true = false); [|discriminate].
      apply Hx1; [exact Hl|].
      assert (zval mx ex = zval (shr_m r1 * 2 ^ n) ex).
      { rewrite zval_scale by lia. replace (ex + n) with e1 by lia.
        rewrite Heqv, HF, HeqF. reflexivity. }
      unfold zval in H. pose proof (pow2_pos (ex + bias) Hex). nia.
    - rewrite (Hrx eq_refl). exact Hle1. }
  assert (Hr2le : zval (shr_m r2) e2 <= zval rnd e1).
  { rewrite He2. rewrite <- zval_scale by lia.
    apply zval_le_cancel; [lia|]. rewrite Hm2. apply div_pow2_le; lia. }
  destruct (shr_m r2) as [|m|m] eqn:Hm2'; [reflexivity| |lia].
  assert (He2le : e2 <= 971).
  { destruct (Z_le_gt_dec e2 971) as [|Hgt]; [assumption|exfalso].
    assert (Hbig : 2 ^ 52 <= Z.pos m).
    { assert (Hrpos : 0 < rnd).
      { destruct (Z.eq_dec rnd 0) as [H0|]; [|lia].
        rewrite H0, Z.div_0_l in Hm2 by lia. lia. }
      destruct (Z.eq_dec n2 0) as [Hz|Hnz].
      - rewrite Hz, Z.pow_0_r, Z.div_1_r in Hm2.
        assert (He21 : e2 = e1) by lia.
        assert (Hmxpos : 0 < mx).
        { destruct (Z.eq_dec mx 0) as [H0|]; [|lia]. exfalso.
          rewrite H0 in He1', Hcan. cbn [Zdigits2] in He1', Hcan.
          rewrite fexp64_eq in He1', Hcan. lia. }
        destruct (Zdigits2_bounds mx Hmxpos) as [Hlo _].
        assert (Hnn : n = Zdigits2 mx - 53).
        { unfold n. rewrite fexp64_eq. rewrite fexp64_eq in He1'. lia. }
        assert (2 ^ (Zdigits2 mx - 1 - n) <= mx / 2 ^ n)
          by (apply div_pow2_ge; [exact Hlo|lia]).
        replace (Zdigits2 mx - 1 - n) with 52 in * by lia. lia.
      - destruct (Zdigits2_bounds rnd Hrpos) as [Hlo _].
        assert (Hnn : n2 = Zdigits2 rnd - 53).
        { unfold n2. unfold n2 in He2, Hnz. rewrite fexp64_eq in *. lia. }
        assert (2 ^ (Zdigits2 rnd - 1 - n2) <= rnd / 2 ^ n2)
          by (apply div_pow2_ge; [exact Hlo|lia]).
        replace (Zdigits2 rnd - 1 - n2) with 52 in * by lia. lia. }
    pose proof (zval_bounded_lt mf ef Hb) as Hflt.
    assert (2 ^ (1024 + bias) <= zval (Z.pos m) e2).
    { unfold zval.
      replace (1024 + bias) with (52 + (972 + bias)) by lia.
      rewrite (Z.pow_add_r 2 52 (972 + bias)) by (unfold bias; lia).
      assert (2 ^ (972 + bias) <= 2 ^ (e2 + bias)) by (apply Z.pow_le_mono_r; unfold bias; lia).
      pose proof (pow2_pos (972 + bias) ltac:(unfold bias; lia)).
      nia. }
    lia. }
  change (emax - prec) with 971.
  destruct (Z.leb_spec e2 971); [|lia].
  split; [reflexivity|]. lia.
Qed.


(** The sign of a rounded number is the sign asked for, and rounding a
    non-negative mantissa never gives a nan. *)
Lemma binary_round_aux_shape sx mx ex lx :
  0 <= mx ->
  match binary_round_aux prec emax sx mx ex lx with
  | S754_zero s | S754_finite s _ _ | S754_infinity s => s = sx
  | S754_nan => False
  end.
Proof.
  intros Hmx. unfold binary_round_aux.
  pose proof (shr_fexp_spec mx ex lx Hmx) as H1.
  destruct (shr_fexp prec emax mx ex lx) as [r1 e1].
  cbn zeta in H1. destruct H1 as (_ & Hm1 & _).
  assert (Hr1 : 0 <= shr_m r1).
  { rewrite Hm1. apply Z.div_pos; [lia|]. apply pow2_pos. lia. }
  destruct (round_nearest_even_bounds r1) as [Hrb _].
  set (rnd := round_nearest_even (shr_m r1) (loc_of_shr_record r1)) in *.
  assert (Hrnd : 0 <= rnd) by lia.
  pose proof (shr_fexp_spec rnd e1 loc_Exact Hrnd) as H2.
  destruct (shr_fexp prec emax rnd e1 loc_Exact) as [r2 e2].
  cbn zeta in H2. destruct H2 as (_ & Hm2 & _).
  assert (Hr2 : 0 <= shr_m r2).
  { rewrite Hm2. apply Z.div_pos; [lia|]. apply pow2_pos. lia. }
  destruct (shr_m r2); [reflexivity| |lia].
  destruct (_ <=? _); reflexivity.
Qed.

Lemma binary_round_aux_opp mx ex lx :
  binary_round_aux prec emax true mx ex lx =
  SFopp (binary_round_aux prec emax false mx ex lx).
Proof.
  unfold binary_round_aux.
  destruct (shr_fexp prec emax mx ex lx) as [r1 e1].
  destruct (shr_fexp prec emax _ e1 loc_Exact) as [r2 e2].
  destruct (shr_m r2); [reflexivity| |reflexivity].
  destruct (_ <=? _); reflexivity.
Qed.

(** *** Multiplication *)

Lemma digits2_pos_mul m1 m2 :
  Z.pos (digits2_pos m1) + Z.pos (digits2_pos m2) - 1 <= Z.pos (digits2_pos (m1 * m2)).
Proof.
  destruct (digits2_pos_bounds m1) as [H1 _].
  destruct (digits2_pos_bounds m2) as [H2 _].
  pose proof (Zdigits2_ge (Z.pos (m1 * m2))
                (Z.pos (digits2_pos m1) - 1 + (Z.pos (digits2_pos m2) - 1))) as H.
  cbn [Zdigits2] in H.
  rewrite Z.pow_add_r in H by lia.
  rewrite Pos2Z.inj_mul in *.
  assert (0 < 2 ^ (Z.pos (digits2_pos m1) - 1)) by (apply pow2_pos; lia).
  assert (0 < 2 ^ (Z.pos (digits2_pos m2) - 1)) by (apply pow2_pos; lia).
  assert (2 ^ (Z.pos (digits2_pos m1) - 1) * 2 ^ (Z.pos (digits2_pos m2) - 1)
          <= Z.pos m1 * Z.pos m2) by nia.
  lia.
Qed.

Lemma mul_canonical_shift m1 e1 m2 e2 :
  bounded prec emax m1 e1 = true -> bounded prec emax m2 e2 = true ->
  e1 + e2 <= fexp64 (Zdigits2 (Z.pos (m1 * m2)) + (e1 + e2)).
Proof.
  intros Hb1 Hb2.
  destruct (bounded_spec m1 e1 Hb1) as (He1 & Hd1 & Hn1 & _).
  destruct (bounded_spec m2 e2 Hb2) as (He2 & Hd2 & Hn2 & _).
  pose proof (digits2_pos_mul m1 m2). cbn [Zdigits2]. rewrite fexp64_eq.
  assert (1 <= Z.pos (digits2_pos m1)) by lia.
  assert (1 <= Z.pos (digits2_pos m2)) by lia.
  lia.
Qed.

(** [x * y <= f] as soon as the exact product is at most [f]. *)
Lemma SFmul_le m1 e1 m2 e2 mf ef :
  bounded prec emax m1 e1 = true -> bounded prec emax m2 e2 = true ->
  bounded prec emax mf ef = true ->
  zval (Z.pos m1) e1 * zval (Z.pos m2) e2 <= zval (Z.pos mf) ef * 2 ^ bias ->
  match SFmul prec emax (S754_finite false m1 e1) (S754_finite false m2 e2) with
  | S754_zero s => s = false
  | S754_finite s m e => s = false /\ zval (Z.pos m) e <= zval (Z.pos mf) ef
  | _ => False
  end.
Proof.
  intros Hb1 Hb2 Hbf Hle.
  destruct (bounded_spec m1 e1 Hb1) as (He1 & _).
  destruct (bounded_spec m2 e2 Hb2) as (He2 & _).
  cbn [SFmul xorb].
  assert (Hv : zval (Z.pos (m1 * m2)) (e1 + e2) <= zval (Z.pos mf) ef).
  { assert (Heq : zval (Z.pos (m1 * m2)) (e1 + e2) * 2 ^ bias
                  = zval (Z.pos m1) e1 * zval (Z.pos m2) e2).
    { unfold zval. rewrite Pos2Z.inj_mul.
      replace (Z.pos m1 * Z.pos m2 * 2 ^ (e1 + e2 + bias) * 2 ^ bias)
        with (Z.pos m1 * Z.pos m2 * (2 ^ (e1 + e2 + bias) * 2 ^ bias)) by ring.
      rewrite <- Z.pow_add_r by (unfold bias; lia).
      replace (e1 + e2 + bias + bias) with ((e1 + bias) + (e2 + bias)) by lia.
      rewrite Z.pow_add_r by (unfold bias; lia). ring. }
    pose proof (pow2_pos bias ltac:(unfold bias; lia)). nia. }
  apply binary_round_aux_le; try assumption; try lia.
  - unfold bias; lia.
  - apply mul_canonical_shift; assumption.
  - intros Hne. congruence.
Qed.

(** *** Division *)

Lemma SFdiv_core_binary_spec m1 e1 m2 e2 :
  0 < m1 -> 0 < m2 ->
  let '(q, e', l) := SFdiv_core_binary prec emax m1 e1 m2 e2 in
  let s := e1 - e2 - e' in
  0 <= s /\ 0 <= q /\
  q * m2 <= m1 * 2 ^ s /\
  (l <> loc_Exact -> q * m2 < m1 * 2 ^ s) /\
  e' <= fexp64 (Zdigits2 m1 + e1 - (Zdigits2 m2 + e2)) /\
  Z.min (-1074) (e1 - e2) <= e' /\
  e' <= fexp64 (Zdigits2 q + e').
Proof.
  intros Hm1 Hm2. unfold SFdiv_core_binary.
  set (d1 := Zdigits2 m1). set (d2 := Zdigits2 m2).
  set (e' := Z.min (fexp64 (d1 + e1 - (d2 + e2))) (e1 - e2)).
  set (s := e1 - e2 - e').
  assert (Hs : 0 <= s) by (unfold s, e'; lia).
  set (m' := match s with Z.pos _ => Z.shiftl m1 s | 0 => m1 | Z.neg _ => 0 end).
  assert (Hm' : m' = m1 * 2 ^ s).
  { unfold m'. destruct s as [|p|p]; [rewrite Z.pow_0_r; lia| |lia].
    apply Z.shiftl_mul_pow2. lia. }
  pose proof (Z_div_mod m' m2 ltac:(lia)) as Hdm.
  destruct (Z.div_eucl m' m2) as [q r]. destruct Hdm as [Hdm Hr].
  cbn zeta. fold s.
  pose proof (pow2_pos s Hs) as Hps.
  rewrite Hm' in Hdm.
  assert (He'1 : e' <= fexp64 (d1 + e1 - (d2 + e2))) by (unfold e'; lia).
  assert (He'2 : Z.min (-1074) (e1 - e2) <= e') by (unfold e'; rewrite fexp64_eq; lia).
  assert (Hsdef : s = e1 - e2 - e') by reflexivity.
  assert (Hd1def : d1 = Zdigits2 m1) by reflexivity.
  assert (Hd2def : d2 = Zdigits2 m2) by reflexivity.
  clearbody m' s e' d1 d2.
  assert (Hq : 0 <= q) by nia.
  split; [exact Hs|]. split; [exact Hq|].
  split; [nia|]. split.
  { intros Hl. assert (r <> 0); [|nia]. intros ->. apply Hl.
    unfold new_location, new_location_even, new_location_odd.
    destruct (Z.even m2); reflexivity. }
  split; [exact He'1|]. split; [exact He'2|].
  assert (Hdq : d1 + s - d2 <= Zdigits2 q).
  { pose proof (Zdigits2_nonneg q).
    destruct (Z_le_gt_dec (d1 + s - d2) 0) as [|Hpos]; [lia|].
    destruct (Zdigits2_bounds m1 Hm1) as [Hlo1 _].
    destruct (Zdigits2_bounds m2 Hm2) as [_ Hhi2].
    rewrite <- Hd1def in Hlo1. rewrite <- Hd2def in Hhi2.
    assert (Hd2 : 0 <= d2) by (rewrite Hd2def; apply Zdigits2_nonneg).
    assert (Hd1 : 1 <= d1) by (rewrite Hd1def; destruct m1; cbn; lia).
    assert (Hlow : 2 ^ (d1 + s - d2 - 1) <= q).
    { assert (Hpw : 2 ^ (d1 - 1) * 2 ^ s = 2 ^ (d1 + s - d2 - 1) * 2 ^ d2).
      { rewrite <- !Z.pow_add_r by lia. f_equal. lia. }
      pose proof (pow2_pos (d1 + s - d2 - 1) ltac:(lia)).
      assert (2 ^ (d1 + s - d2 - 1) * m2 <= m1 * 2 ^ s) by nia.
      destruct (Z_le_gt_dec (2 ^ (d1 + s - d2 - 1)) q); [assumption|nia]. }
    pose proof (Zdigits2_ge q (d1 + s - d2 - 1) Hlow ltac:(lia)). lia. }
  assert (fexp64 (d1 + e1 - (d2 + e2)) <= fexp64 (Zdigits2 q + e')).
  { rewrite !fexp64_eq. lia. }
  lia.
Qed.

(** [x / y <= f] as soon as [x <= f * y] on the exact values. *)
Lemma SFdiv_le m1 e1 m2 e2 mf ef :
  bounded prec emax m1 e1 = true -> bounded prec emax m2 e2 = true ->
  bounded prec emax mf ef = true ->
  zval (Z.pos m1) e1 * 2 ^ bias <= zval (Z.pos mf) ef * zval (Z.pos m2) e2 ->
  match SFdiv prec emax (S754_finite false m1 e1) (S754_finite false m2 e2) with
  | S754_zero s => s = false
  | S754_finite s m e => s = false /\ zval (Z.pos m) e <= zval (Z.pos mf) ef
  | _ => False
  end.
Proof.
  intros Hb1 Hb2 Hbf Hle.
  destruct (bounded_spec m1 e1 Hb1) as (He1 & _).
  destruct (bounded_spec m2 e2 Hb2) as (He2 & _).
  cbn [SFdiv xorb].
  pose proof (SFdiv_core_binary_spec (Z.pos m1) e1 (Z.pos m2) e2 ltac:(lia) ltac:(lia)) as Hc.
  destruct (SFdiv_core_binary prec emax (Z.pos m1) e1 (Z.pos m2) e2) as [[q e'] l].
  cbn zeta in Hc. destruct Hc as (Hs & Hq & Hqm & Hstrict & He' & He'lo & Hcan).
  assert (He'b : 0 <= e' + bias) by (unfold bias; lia).
  pose proof (pow2_pos bias ltac:(unfold bias; lia)) as Hpb.
  pose proof (pow2_pos (e' + bias) He'b) as Hpe.
  pose proof (pow2_pos (e2 + bias) ltac:(unfold bias; lia)) as Hp2.
  (* m1 * 2^s at exponent e' + e2 is the value of x *)
  assert (Hx : Z.pos m1 * 2 ^ (e1 - e2 - e') * 2 ^ (e' + bias) * 2 ^ (e2 + bias)
               = zval (Z.pos m1) e1 * 2 ^ bias).
  { unfold zval.
    replace (Z.pos m1 * 2 ^ (e1 - e2 - e') * 2 ^ (e' + bias) * 2 ^ (e2 + bias))
      with (Z.pos m1 * (2 ^ (e1 - e2 - e') * 2 ^ (e' + bias) * 2 ^ (e2 + bias))) by ring.
    rewrite <- !Z.pow_add_r by (unfold bias; lia).
    replace (Z.pos m1 * 2 ^ (e1 + bias) * 2 ^ bias)
      with (Z.pos m1 * (2 ^ (e1 + bias) * 2 ^ bias)) by ring.
    rewrite <- Z.pow_add_r by (unfold bias; lia).
    do 2 f_equal. lia. }
  assert (Hzm2 : zval (Z.pos m2) e2 = Z.pos m2 * 2 ^ (e2 + bias)) by reflexivity.
  assert (Hzq : zval q e' = q * 2 ^ (e' + bias)) by reflexivity.
  assert (Hmain : zval q e' * zval (Z.pos m2) e2 <= zval (Z.pos mf) ef * zval (Z.pos m2) e2).
  { rewrite Hzq. rewrite Hzm2 at 1.
    replace (q * 2 ^ (e' + bias) * (Z.pos m2 * 2 ^ (e2 + bias)))
      with (q * Z.pos m2 * 2 ^ (e' + bias) * 2 ^ (e2 + bias)) by ring.
    assert (q * Z.pos m2 * 2 ^ (e' + bias) * 2 ^ (e2 + bias)
            <= Z.pos m1 * 2 ^ (e1 - e2 - e') * 2 ^ (e' + bias) * 2 ^ (e2 + bias)).
    { apply Z.mul_le_mono_nonneg_r; [lia|].
      apply Z.mul_le_mono_nonneg_r; [lia|]. exact Hqm. }
    lia. }
  assert (Hpos2 : 0 < zval (Z.pos m2) e2) by (rewrite Hzm2; nia).
  apply binary_round_aux_le; try assumption.
  - nia.
  - intros Hne. specialize (Hstrict Hne).
    assert (zval q e' * zval (Z.pos m2) e2 < zval (Z.pos mf) ef * zval (Z.pos m2) e2); [|nia].
    rewrite Hzq. rewrite Hzm2 at 1.
    replace (q * 2 ^ (e' + bias) * (Z.pos m2 * 2 ^ (e2 + bias)))
      with (q * Z.pos m2 * 2 ^ (e' + bias) * 2 ^ (e2 + bias)) by ring.
    assert (q * Z.pos m2 * 2 ^ (e' + bias) * 2 ^ (e2 + bias)
            < Z.pos m1 * 2 ^ (e1 - e2 - e') * 2 ^ (e' + bias) * 2 ^ (e2 + bias)).
    { apply Z.mul_lt_mono_pos_r; [lia|].
      apply Z.mul_lt_mono_pos_r; [lia|]. exact Hstrict. }
    lia.
Qed.

Lemma SFdiv_shape sx m1 e1 sy m2 e2 :
  match SFdiv prec emax (S754_finite sx m1 e1) (S754_finite sy m2 e2) with
  | S754_zero s | S754_finite s _ _ | S754_infinity s => s = xorb sx sy
  | S754_nan => False
  end.
Proof.
  cbn [SFdiv].
  pose proof (SFdiv_core_binary_spec (Z.pos m1) e1 (Z.pos m2) e2 ltac:(lia) ltac:(lia)) as Hc.
  destruct (SFdiv_core_binary prec emax (Z.pos m1) e1 (Z.pos m2) e2) as [[q e'] l].
  cbn zeta in Hc. destruct Hc as (_ & Hq & _).
  apply binary_round_aux_shape. exact Hq.
Qed.

(** *** Addition and subtraction *)

Lemma Pos_iter_xO m d : Z.pos (Pos.iter xO m d) = Z.pos m * 2 ^ Z.pos d.
Proof.
  induction d as [|d IH] using Pos.peano_ind.
  - cbn. lia.
  - rewrite Pos.iter_succ, Pos2Z.inj_xO, IH, Pos2Z.inj_succ, Z.pow_succ_r by lia. ring.
Qed.

Lemma shl_align_fst m e ez :
  ez <= e -> Z.pos (fst (shl_align m e ez)) = Z.pos m * 2 ^ (e - ez).
Proof.
  intros Hle. unfold shl_align.
  destruct (ez - e) as [|p|p] eqn:Hd.
  - replace (e - ez) with 0 by lia. cbn [fst]. rewrite Z.pow_0_r. lia.
  - lia.
  - cbn [fst]. rewrite Pos_iter_xO. f_equal. f_equal. lia.
Qed.

Lemma binary_normalize_shape m e :
  match binary_normalize prec emax m e false with
  | S754_zero s | S754_finite s _ _ | S754_infinity s => s = (m <? 0)
  | S754_nan => False
  end.
Proof.
  destruct m as [|p|p]; cbn [binary_normalize]; [reflexivity| |].
  - unfold binary_round. destruct (shl_align _ _ _) as [mz ez].
    apply binary_round_aux_shape. lia.
  - unfold binary_round. destruct (shl_align _ _ _) as [mz ez].
    apply (binary_round_aux_shape true). lia.
Qed.

Lemma zval_aligned m e ez :
  ez <= e -> 0 <= ez + bias ->
  zval (Z.pos (fst (shl_align m e ez))) ez = zval (Z.pos m) e.
Proof.
  intros Hle Hb. rewrite shl_align_fst by assumption.
  rewrite zval_scale by lia. f_equal. lia.
Qed.

End Binary64.

(** ** Operations of primitive floats, through their specification *)

Section Floats.
Local Open Scope float_scope.

Lemma Prim2SF_0 : Prim2SF 0 = S754_zero false.
Proof. vm_compute. reflexivity. Qed.

Lemma Prim2SF_1 : Prim2SF 1 = S754_finite false 4503599627370496 (-52).
Proof. vm_compute. reflexivity. Qed.

Lemma Prim2SF_infinity : Prim2SF infinity = S754_infinity false.
Proof. vm_compute. reflexivity. Qed.

Lemma SFcompare_refl_finite s m e :
  SFcompare (S754_finite s m e) (S754_finite s m e) = Some Eq.
Proof.
  cbn. rewrite Z.compare_refl.
  change (Pos.compare_cont Eq m m) with (Pos.compare m m).
  rewrite Pos.compare_refl. destruct s; reflexivity.
Qed.

Lemma leb_0_l x : (0 <=? x) = sf_nonneg (Prim2SF x).
Proof.
  rewrite leb_spec, Prim2SF_0.
  destruct (Prim2SF x) as [[]|[]| |[] m e]; reflexivity.
Qed.

Lemma leb_0_r x : (x <=? 0) = sf_nonpos (Prim2SF x).
Proof.
  rewrite leb_spec, Prim2SF_0.
  destruct (Prim2SF x) as [[]|[]| |[] m e]; reflexivity.
Qed.

Lemma is_finite_SF x : is_finite x = sf_finite (Prim2SF x).
Proof.
  unfold is_finite, is_nan, is_infinity.
  rewrite !FloatAxioms.eqb_spec, abs_spec, Prim2SF_infinity.
  destruct (Prim2SF x) as [[]|[]| |s m e]; try reflexivity.
  unfold SFeqb. rewrite SFcompare_refl_finite. reflexivity.
Qed.

Lemma is_zero_SF x : is_zero x = sf_zero (Prim2SF x).
Proof.
  unfold is_zero. rewrite FloatAxioms.eqb_spec.
  change (Prim2SF zero) with (Prim2SF 0). rewrite Prim2SF_0.
  destruct (Prim2SF x) as [[]|[]| |[] m e]; reflexivity.
Qed.

(** *** Signs *)

Lemma float_mul_nonneg a b :
  (0 <=? a) = true -> (0 <=? b) = true ->
  is_finite a = true -> is_finite b = true ->
  (0 <=? a * b) = true.
Proof.
  rewrite !leb_0_l, !is_finite_SF, mul_spec. unfold SF64mul.
  destruct (Prim2SF a) as [[]|[]| |[] ma ea], (Prim2SF b) as [[]|[]| |[] mb eb];
    try discriminate; try reflexivity.
  intros _ _ _ _. cbn [SFmul xorb].
  pose proof (binary_round_aux_shape false (Z.pos (ma * mb)) (ea + eb) loc_Exact ltac:(lia)) as Hs.
  destruct (binary_round_aux _ _ _ _ _ _) as [?|?| |? ? ?]; try subst; try reflexivity.
  destruct Hs.
Qed.

Lemma float_mul_nonneg_pos a b :
  (0 <=? a) = true -> (0 <=? b) = true ->
  is_finite b = true -> is_zero b = false ->
  (0 <=? a * b) = true.
Proof.
  rewrite !leb_0_l, !is_finite_SF, is_zero_SF, mul_spec. unfold SF64mul.
  destruct (Prim2SF a) as [[]|[]| |[] ma ea], (Prim2SF b) as [[]|[]| |[] mb eb];
    try discriminate; try reflexivity.
  intros _ _ _ _. cbn [SFmul xorb].
  pose proof (binary_round_aux_shape false (Z.pos (ma * mb)) (ea + eb) loc_Exact ltac:(lia)) as Hs.
  destruct (binary_round_aux _ _ _ _ _ _) as [?|?| |? ? ?]; try subst; try reflexivity.
  destruct Hs.
Qed.

Lemma SFadd_finite_nonneg mx ex my ey :
  sf_nonneg (SFadd prec emax (S754_finite false mx ex) (S754_finite false my ey)) = true.
Proof.
  cbn [SFadd cond_Zopp].
  set (z := (Z.pos _ + Z.pos _)%Z).
  pose proof (binary_normalize_shape z (Z.min ex ey)) as Hs.
  assert (Hz : (z <? 0)%Z = false) by (apply Z.ltb_ge; unfold z; lia).
  rewrite Hz in Hs.
  destruct (binary_normalize _ _ _ _ _) as [?|?| |? ? ?]; try contradiction; subst; reflexivity.
Qed.

Lemma float_add_nonneg a b :
  (0 <=? a) = true -> (0 <=? b) = true -> (0 <=? a + b) = true.
Proof.
  rewrite !leb_0_l, add_spec. unfold SF64add.
  destruct (Prim2SF a) as [[]|[]| |[] ma ea], (Prim2SF b) as [[]|[]| |[] mb eb];
    try discriminate; try reflexivity.
  intros _ _. apply SFadd_finite_nonneg.
Qed.

Lemma float_div_nonneg a b :
  (0 <=? a) = true -> (0 <=? b) = true ->
  is_finite b = true -> is_zero b = false ->
  (0 <=? a / b) = true.
Proof.
  rewrite !leb_0_l, !is_finite_SF, is_zero_SF, div_spec. unfold SF64div.
  destruct (Prim2SF a) as [[]|[]| |[] ma ea], (Prim2SF b) as [[]|[]| |[] mb eb];
    try discriminate; try reflexivity.
  intros _ _ _ _.
  pose proof (SFdiv_shape false ma ea false mb eb) as Hs.
  destruct (SFdiv _ _ _ _) as [?|?| |? ? ?]; try (cbn in Hs; subst; reflexivity).
  destruct Hs.
Qed.


(** *** Zeros *)

Lemma float_mul_zero_l a b :
  is_zero a = true -> is_finite b = true -> is_zero (a * b) = true.
Proof.
  rewrite !is_zero_SF, is_finite_SF, mul_spec. unfold SF64mul.
  destruct (Prim2SF a) as [[]|[]| |[] ma ea], (Prim2SF b) as [[]|[]| |[] mb eb];
    try discriminate; reflexivity.
Qed.

Lemma float_mul_zero_r a b :
  is_finite a = true -> is_zero b = true -> is_zero (a * b) = true.
Proof.
  rewrite !is_zero_SF, is_finite_SF, mul_spec. unfold SF64mul.
  destruct (Prim2SF a) as [[]|[]| |[] ma ea], (Prim2SF b) as [[]|[]| |[] mb eb];
    try discriminate; reflexivity.
Qed.

Lemma float_add_zero a b :
  is_zero a = true -> is_zero b = true -> is_zero (a + b) = true.
Proof.
  rewrite !is_zero_SF, add_spec. unfold SF64add.
  destruct (Prim2SF a) as [[]|[]| |[] ma ea], (Prim2SF b) as [[]|[]| |[] mb eb];
    try discriminate; reflexivity.
Qed.

Lemma float_sub_zero a b :
  is_zero a = true -> is_zero b = true -> is_zero (a - b) = true.
Proof.
  rewrite !is_zero_SF, sub_spec. unfold SF64sub.
  destruct (Prim2SF a) as [[]|[]| |[] ma ea], (Prim2SF b) as [[]|[]| |[] mb eb];
    try discriminate; reflexivity.
Qed.

Lemma float_div_zero_l a b :
  is_zero a = true -> is_finite b = true -> is_zero b = false ->
  is_zero (a / b) = true.
Proof.
  rewrite !is_zero_SF, is_finite_SF, div_spec. unfold SF64div.
  destruct (Prim2SF a) as [[]|[]| |[] ma ea], (Prim2SF b) as [[]|[]| |[] mb eb];
    try discriminate; reflexivity.
Qed.

(** *** Bounds *)

Lemma zval_one : zval 4503599627370496 (-52) = (2 ^ bias)%Z.
Proof. vm_compute. reflexivity. Qed.

Lemma bounded_one : bounded prec emax 4503599627370496 (-52) = true.
Proof. vm_compute. reflexivity. Qed.

(** A factor of at most 1 does not increase a non-negative number. *)
Lemma float_mul_le_self s x :
  is_finite s = true -> (0 <=? s) = true ->
  (0 <=? x) = true -> (x <=? 1) = true ->
  (s * x <=? s) = true /\ (0 <=? s * x) = true.
Proof.
  intros Hfs Hs Hx Hx1.
  pose proof (Prim2SF_valid s) as Hvs. pose proof (Prim2SF_valid x) as Hvx.
  pose proof (Prim2SF_valid (s * x)) as Hvr.
  rewrite is_finite_SF in Hfs. rewrite leb_0_l in Hs, Hx.
  rewrite leb_spec, Prim2SF_1 in Hx1.
  rewrite leb_0_l, leb_spec, mul_spec. rewrite mul_spec in Hvr.
  unfold SF64mul in *.
  destruct (Prim2SF s) as [[]|[]| |[] ms es], (Prim2SF x) as [[]|[]| |[] mx ex];
    try discriminate; try (split; reflexivity).
  cbn [valid_binary] in Hvs, Hvx.
  apply (SFleb_finite_nonneg _ _ _ _ Hvx bounded_one) in Hx1. rewrite zval_one in Hx1.
  assert (Hle : (zval (Z.pos ms) es * zval (Z.pos mx) ex <= zval (Z.pos ms) es * 2 ^ bias)%Z).
  { apply Z.mul_le_mono_nonneg_l; [|exact Hx1].
    apply zval_nonneg; [lia|].
    destruct (bounded_spec ms es Hvs) as (? & _). unfold bias. lia. }
  pose proof (SFmul_le ms es mx ex ms es Hvs Hvx Hvs Hle) as Hr.
  destruct (SFmul prec emax _ _) as [sr|sr| |sr mr er]; try contradiction.
  - subst sr. split; reflexivity.
  - destruct Hr as [-> Hr]. cbn [valid_binary] in Hvr.
    split; [|reflexivity].
    apply SFleb_finite_nonneg; assumption.
Qed.

(** A quotient by a number that is not smaller is at most 1. *)
Lemma float_div_le_one d y :
  (0 <=? d) = true -> (d <=? y) = true ->
  is_finite y = true -> is_zero y = false ->
  (d / y <=? 1) = true /\ (0 <=? d / y) = true.
Proof.
  intros Hd Hdy Hfy Hzy.
  pose proof (Prim2SF_valid d) as Hvd. pose proof (Prim2SF_valid y) as Hvy.
  pose proof (Prim2SF_valid (d / y)) as Hvr.
  rewrite is_finite_SF in Hfy. rewrite is_zero_SF in Hzy. rewrite leb_0_l in Hd.
  rewrite leb_spec in Hdy.
  rewrite leb_0_l, leb_spec, div_spec, Prim2SF_1. rewrite div_spec in Hvr.
  unfold SF64div in *.
  destruct (Prim2SF d) as [[]|[]| |[] md ed], (Prim2SF y) as [[]|[]| |[] my ey];
    try discriminate; try (split; reflexivity).
  cbn [valid_binary] in Hvd, Hvy.
  apply (SFleb_finite_nonneg _ _ _ _ Hvd Hvy) in Hdy.
  assert (Hle : (zval (Z.pos md) ed * 2 ^ bias
                 <= zval 4503599627370496 (-52) * zval (Z.pos my) ey)%Z).
  { rewrite zval_one. pose proof (pow2_pos bias ltac:(unfold bias; lia)). nia. }
  pose proof (SFdiv_le md ed my ey _ _ Hvd Hvy bounded_one Hle) as Hr.
  destruct (SFdiv prec emax _ _) as [sr|sr| |sr mr er]; try contradiction.
  - subst sr. split; reflexivity.
  - destruct Hr as [-> Hr]. cbn [valid_binary] in Hvr.
    split; [|reflexivity].
    apply SFleb_finite_nonneg; [assumption|exact bounded_one|assumption].
Qed.

Lemma SFdiv_opp_l m1 e1 m2 e2 :
  SFdiv prec emax (S754_finite true m1 e1) (S754_finite false m2 e2) =
  SFopp (SFdiv prec emax (S754_finite false m1 e1) (S754_finite false m2 e2)).
Proof.
  cbn [SFdiv xorb].
  destruct (SFdiv_core_binary prec emax (Z.pos m1) e1 (Z.pos m2) e2) as [[q e'] l].
  apply binary_round_aux_opp.
Qed.

(** Dividing a finite number by a number that is at least 1 gives a finite
    number of the same sign. *)
Lemma float_div_finite d y :
  is_finite d = true -> (1 <=? y) = true -> is_finite y = true ->
  is_finite (d / y) = true /\
  ((0 <=? d) = true -> (0 <=? d / y) = true) /\
  ((d <=? 0) = true -> (d / y <=? 0) = true).
Proof.
  intros Hfd Hy Hfy.
  pose proof (Prim2SF_valid d) as Hvd. pose proof (Prim2SF_valid y) as Hvy.
  rewrite leb_spec, Prim2SF_1 in Hy.
  rewrite !leb_0_l, !leb_0_r, !is_finite_SF, div_spec in *.
  unfold SF64div in *.
  destruct (Prim2SF y) as [[]|[]| |[] my ey]; try discriminate.
  cbn [valid_binary] in Hvy.
  apply (SFleb_finite_nonneg _ _ _ _ bounded_one Hvy) in Hy. rewrite zval_one in Hy.
  destruct (Prim2SF d) as [[]|[]| |sd md ed]; try discriminate;
    try (repeat split; reflexivity).
  cbn [valid_binary] in Hvd.
  assert (Hle : (zval (Z.pos md) ed * 2 ^ bias
                 <= zval (Z.pos md) ed * zval (Z.pos my) ey)%Z).
  { apply Z.mul_le_mono_nonneg_l; [|exact Hy].
    apply zval_nonneg; [lia|].
    destruct (bounded_spec md ed Hvd) as (? & _). unfold bias. lia. }
  pose proof (SFdiv_le md ed my ey md ed Hvd Hvy Hvd Hle) as Hr.
  destruct sd.
  - rewrite SFdiv_opp_l.
    destruct (SFdiv prec emax _ _) as [sr|sr| |sr mr er]; try contradiction.
    + subst sr. repeat split; reflexivity.
    + destruct Hr as [-> Hr]. repeat split; try reflexivity. discriminate.
  - destruct (SFdiv prec emax _ _) as [sr|sr| |sr mr er]; try contradiction.
    + subst sr. repeat split; reflexivity.
    + destruct Hr as [-> Hr]. repeat split; try reflexivity. discriminate.
Qed.

(** Subtracting a number that is not larger leaves a non-negative number. *)
Lemma float_sub_nonneg s y :
  is_finite s = true -> (0 <=? s) = true ->
  (0 <=? y) = true -> (y <=? s) = true ->
  (0 <=? s - y) = true.
Proof.
  intros Hfs Hs Hy Hys.
  pose proof (Prim2SF_valid s) as Hvs. pose proof (Prim2SF_valid y) as Hvy.
  rewrite leb_0_l in Hs, Hy. rewrite is_finite_SF in Hfs.
  rewrite leb_spec in Hys. rewrite leb_0_l, sub_spec. unfold SF64sub.
  destruct (Prim2SF s) as [[]|[]| |[] ms es], (Prim2SF y) as [[]|[]| |[] my ey];
    try discriminate; try reflexivity.
  cbn [valid_binary] in Hvs, Hvy.
  apply (SFleb_finite_nonneg _ _ _ _ Hvy Hvs) in Hys.
  destruct (bounded_spec ms es Hvs) as (Hes & _).
  destruct (bounded_spec my ey Hvy) as (Hey & _).
  cbn [SFsub cond_Zopp].
  set (ez := Z.min es ey).
  set (z := (Z.pos (fst (shl_align ms es ez)) - Z.pos (fst (shl_align my ey ez)))%Z).
  assert (Hz : (0 <= z)%Z).
  { assert (Hb : (0 <= ez + bias)%Z) by (unfold ez, bias; lia).
    pose proof (zval_aligned ms es ez ltac:(unfold ez; lia) Hb) as H1.
    pose proof (zval_aligned my ey ez ltac:(unfold ez; lia) Hb) as H2.
    assert ((Z.pos (fst (shl_align my ey ez)) <= Z.pos (fst (shl_align ms es ez)))%Z).
    { apply (zval_le_cancel _ _ ez Hb). lia. }
    unfold z. lia. }
  pose proof (binary_normalize_shape z ez) as Hsh.
  assert (Hneg : (z <? 0)%Z = false) by (apply Z.ltb_ge; exact Hz).
  rewrite Hneg in Hsh.
  destruct (binary_normalize _ _ _ _ _) as [?|?| |? ? ?]; try contradiction; subst; reflexivity.
Qed.

(** The product of a non-negative and a non-positive number. *)
Lemma float_mul_nonpos s x :
  is_finite s = true -> (0 <=? s) = true ->
  is_finite x = true -> (x <=? 0) = true ->
  (s * x <=? 0) = true.
Proof.
  rewrite !leb_0_l, !leb_0_r, !is_finite_SF, mul_spec. unfold SF64mul.
  destruct (Prim2SF s) as [[]|[]| |[] ms es], (Prim2SF x) as [[]|[]| |[] mx ex];
    try discriminate; try reflexivity.
  intros _ _ _ _. cbn [SFmul xorb].
  pose proof (binary_round_aux_shape true (Z.pos (ms * mx)) (es + ex) loc_Exact ltac:(lia)) as Hs.
  destruct (binary_round_aux _ _ _ _ _ _) as [?|?| |? ? ?]; try subst; try reflexivity.
  destruct Hs.
Qed.

(** Subtracting a non-positive number from a non-negative one. *)
Lemma float_sub_nonpos s y :
  is_finite s = true -> (0 <=? s) = true -> (y <=? 0) = true ->
  (0 <=? s - y) = true.
Proof.
  rewrite !leb_0_l, !leb_0_r, !is_finite_SF, sub_spec. unfold SF64sub.
  destruct (Prim2SF s) as [[]|[]| |[] ms es], (Prim2SF y) as [[]|[]| |[] my ey];
    try discriminate; try reflexivity.
  intros _ _ _. cbn [SFsub cond_Zopp].
  set (z := (Z.pos _ - - Z.pos _)%Z).
  pose proof (binary_normalize_shape z (Z.min es ey)) as Hsh.
  assert (Hneg : (z <? 0)%Z = false) by (apply Z.ltb_ge; unfold z; lia).
  rewrite Hneg in Hsh.
  destruct (binary_normalize _ _ _ _ _) as [?|?| |? ? ?]; try contradiction; subst; reflexivity.
Qed.

End Floats.

Section FloatOrder.
Local Open Scope float_scope.

Lemma SFcompare_antisym x y :
  SFcompare y x = option_map CompOpp (SFcompare x y).
Proof.
  assert (Hc : forall mx my, Pos.compare_cont Eq my mx = CompOpp (Pos.compare_cont Eq mx my)).
  { intros mx my. rewrite (Pos.compare_cont_antisym mx my Eq). reflexivity. }
  destruct x as [[]|[]| |[] mx ex], y as [[]|[]| |[] my ey]; cbn; try reflexivity.
  - rewrite (Z.compare_antisym ex ey), Hc.
    destruct (ex ?= ey)%Z; cbn; reflexivity.
  - rewrite (Z.compare_antisym ex ey), Hc.
    destruct (ex ?= ey)%Z; cbn; reflexivity.
Qed.

(** Two finite numbers are ordered one way or the other. *)
Lemma float_not_leb_ltb x y :
  is_finite x = true -> is_finite y = true ->
  (x <=? y) = false -> (y <? x) = true.
Proof.
  rewrite !is_finite_SF, leb_spec, ltb_spec. unfold SFleb, SFltb.
  rewrite (SFcompare_antisym (Prim2SF x) (Prim2SF y)).
  intros Hx Hy Hle.
  destruct (SFcompare (Prim2SF x) (Prim2SF y)) as [[]|] eqn:Hc; try discriminate.
  - reflexivity.
  - destruct (Prim2SF x) as [[]|[]| |[] mx ex], (Prim2SF y) as [[]|[]| |[] my ey];
      discriminate.
Qed.

Lemma float_ltb_not_leb x y : (x <? y) = true -> (y <=? x) = false.
Proof.
  rewrite leb_spec, ltb_spec. unfold SFleb, SFltb.
  rewrite (SFcompare_antisym (Prim2SF x) (Prim2SF y)).
  destruct (SFcompare (Prim2SF x) (Prim2SF y)) as [[]|]; try discriminate; reflexivity.
Qed.

Lemma float_finite_nonneg_or_nonpos x :
  is_finite x = true -> (0 <=? x) = false -> (x <=? 0) = true.
Proof.
  rewrite is_finite_SF, leb_0_l, leb_0_r.
  destruct (Prim2SF x) as [[]|[]| |[] mx ex]; try discriminate; reflexivity.
Qed.

Lemma float_leb_finite x y :
  (0 <=? x) = true -> (x <=? y) = true -> is_finite y = true -> is_finite x = true.
Proof.
  rewrite !is_finite_SF, leb_0_l, leb_spec.
  destruct (Prim2SF x) as [[]|[]| |[] mx ex], (Prim2SF y) as [[]|[]| |[] my ey];
    try discriminate; reflexivity.
Qed.

Lemma float_sub_zero_r s z :
  is_finite s = true -> is_zero z = true ->
  (s - z =? s)%float = true /\ (is_zero s = false -> (s - z)%float = s).
Proof.
  rewrite is_finite_SF, !is_zero_SF, FloatAxioms.eqb_spec, sub_spec. unfold SF64sub.
  intros Hs Hz. split.
  - destruct (Prim2SF s) as [[]|[]| |ss ms es], (Prim2SF z) as [[]|[]| |[] mz ez];
      try discriminate; try reflexivity;
      cbn [SFsub]; unfold SFeqb; by rewrite SFcompare_refl_finite.
  - intros Hnz. apply Prim2SF_inj. rewrite sub_spec. unfold SF64sub.
    destruct (Prim2SF s) as [[]|[]| |ss ms es], (Prim2SF z) as [[]|[]| |[] mz ez];
      try discriminate; reflexivity.
Qed.

End FloatOrder.

(** ** What the loop computes, for any kind of number *)

Section EngineFacts.
Context {num : Type} `{PyNumber num}.
Local Open Scope py_scope.
Implicit Types (rates : gmap string num) (items : list (selection num)).
Implicit Types (ex : extras_dict num) (d : num).

Lemma foldl_quote_step rates items rs s :
  foldl (quote_step rates) (rs, s) items =
  (rs ++ (row_of rates <$> items), foldl add s (Total <$> (row_of rates <$> items))).
Proof.
  revert rs s. induction items as [|it items IH]; intros rs s; simpl.
  - by rewrite app_nil_r.
  - rewrite IH. by rewrite <- app_assoc.
Qed.

Lemma calculate_quote_unfold rates items ex d :
  calculate_quote rates items ex d =
  let subtotal :=
    foldl add (of_int 0) (Total <$> (row_of rates <$> items)) +
    (if truthy ex then py_sum (ex.*2) else of_int 0) in
  let discount_amt := subtotal * (d / of_int 100) in
  let taxable := subtotal - discount_amt in
  let gst_amt := taxable * of_int GST_PERCENT / of_int 100 in
  {| rows := row_of rates <$> items;
     extras := ex;
     subtotal := subtotal;
     discount_amt := discount_amt;
     taxable := taxable;
     gst_amt := gst_amt;
     grand_total := taxable + gst_amt |}.
Proof. unfold calculate_quote. by rewrite foldl_quote_step. Qed.

Lemma rows_calculate_quote rates items ex d :
  rows (calculate_quote rates items ex d) = row_of rates <$> items.
Proof. by rewrite calculate_quote_unfold. Qed.

Lemma extras_calculate_quote rates items ex d :
  extras (calculate_quote rates items ex d) = ex.
Proof. by rewrite calculate_quote_unfold. Qed.

(** The "Quote Builder" loop only appends selections whose quantity passed
    the test [qty > 0]. *)
Lemma quote_builder_selected_items_positive (cat : list (string * num)) include qty_of :
  Forall (fun it => (sel_qty it >? of_int 0) = true)
         (quote_builder_selected_items cat include qty_of).
Proof.
  unfold quote_builder_selected_items.
  assert (Hgen : forall acc,
    Forall (fun it : selection num => (sel_qty it >? of_int 0) = true) acc ->
    Forall (fun it : selection num => (sel_qty it >? of_int 0) = true)
           (foldl (select_step include qty_of) acc cat)).
  { induction cat as [|[name rate] cat IH]; intros acc Hacc; [done|].
    simpl. apply IH.
    destruct (include name); simpl; [|done].
    destruct (qty_of name >? of_int 0) eqn:Hq; [|done].
    apply Forall_app. split; [done|]. by repeat constructor. }
  by apply Hgen.
Qed.

Lemma calculate_quote_amounts rates items ex d :
  let q := calculate_quote rates items ex d in
  discount_amt q = subtotal q * (d / of_int 100) /\
  taxable q = subtotal q - discount_amt q /\
  gst_amt q = taxable q * of_int GST_PERCENT / of_int 100 /\
  grand_total q = taxable q + gst_amt q.
Proof. rewrite calculate_quote_unfold. by cbv zeta. Qed.

(** A loop that appends one line per element appends the mapped list. *)
Lemma foldl_append_lines {A B : Type} (f : A -> B) (xs : list A) (acc : list B) :
  foldl (fun data x => data ++ [f x]) acc xs = acc ++ (f <$> xs).
Proof.
  revert acc. induction xs as [|x xs IH]; intros acc; simpl.
  - by rewrite app_nil_r.
  - rewrite IH. by rewrite <- app_assoc.
Qed.

End EngineFacts.

(** ** The call on the heap computes [calculate_quote] and writes only to
       objects it allocated *)

Section HeapFacts.
Context {num : Type} `{PyNumber num}.
Local Open Scope py_scope.
Implicit Types (h : gmap loc (obj num)) (rates : gmap string num).
Implicit Types (items : list (selection num)) (ex : extras_dict num).

Lemma fresh_loc_unused h : h !! fresh (dom h) = None.
Proof. apply not_elem_of_dom, is_fresh. Qed.

(** One pass writes a new row object and the list [rows], nothing else. *)
Lemma pass_lookup h r rows_l (o1 o2 : obj num) l :
  h !! r = None -> is_Some (h !! l) -> l <> rows_l ->
  <[rows_l := o2]> (<[r := o1]> h) !! l = h !! l.
Proof.
  intros Hr [o Hl] Hne.
  rewrite lookup_insert_ne by done.
  rewrite lookup_insert_ne; [done | congruence].
Qed.

Lemma quote_step_heap_eq h rates_l rows_l rates it_l it s elems :
  h !! rates_l = Some (ORates rates) ->
  h !! rows_l = Some (OList elems) ->
  h !! it_l = Some (OSelection it) ->
  quote_step_heap rates_l rows_l (h, s) it_l =
  Some (<[rows_l := OList (elems ++ [fresh (dom h)])]>
          (<[fresh (dom h) := ORow (row_of rates it)]> h),
        s + Total (row_of rates it)).
Proof.
  intros Hrates Hrows Hit.
  unfold quote_step_heap, read_selection, read_rates, heap_alloc.
  rewrite Hit, Hrates. simpl.
  unfold read_list. rewrite lookup_insert_ne.
  - by rewrite Hrows.
  - intros Heq. rewrite <- Heq in Hrows. by rewrite fresh_loc_unused in Hrows.
Qed.

Lemma quote_loop_heap_spec rates_l rows_l rates ls :
  forall items h s elems,
  h !! rates_l = Some (ORates rates) ->
  h !! rows_l = Some (OList elems) ->
  Forall2 (fun l it => h !! l = Some (OSelection it)) ls items ->
  exists h' elems',
    quote_loop_heap rates_l rows_l ls (h, s) =
      Some (h', foldl add s (Total <$> (row_of rates <$> items))) /\
    (forall l, is_Some (h !! l) -> l <> rows_l -> h' !! l = h !! l) /\
    h' !! rows_l = Some (OList (elems ++ elems')) /\
    Forall2 (fun l r => h' !! l = Some (ORow r)) elems' (row_of rates <$> items).
Proof.
  induction ls as [|it_l ls IH]; intros items h s elems Hrates Hrows Hsel.
  - apply Forall2_nil_inv_l in Hsel as ->.
    exists h, []. simpl. rewrite app_nil_r. repeat split; auto.
  - apply Forall2_cons_inv_l in Hsel as (it & items' & Hit & Hsel & ->).
    cbn [quote_loop_heap].
    rewrite (quote_step_heap_eq _ _ _ rates _ it _ elems) by done.
    cbn [mbind option_bind fmap list_fmap foldl].
    set (r := fresh (dom h)).
    set (h2 := <[rows_l := OList (elems ++ [r])]> (<[r := ORow (row_of rates it)]> h)).
    assert (Hr : h !! r = None) by apply fresh_loc_unused.
    assert (Hkeep : forall l, is_Some (h !! l) -> l <> rows_l -> h2 !! l = h !! l).
    { intros l Hl Hne. by apply pass_lookup. }
    destruct (IH items' h2 (s + Total (row_of rates it)) (elems ++ [r]))
      as (h' & elems' & Hrun & Hframe & Hrows' & Hnew).
    + rewrite Hkeep; [done | by eexists | congruence].
    + apply lookup_insert_eq.
    + eapply Forall2_impl; [exact Hsel|]. simpl. intros l it' Hl.
      rewrite Hkeep; [done | by eexists | congruence].
    + exists h', (r :: elems'). split; [exact Hrun|]. split; [|split].
      * intros l Hl Hne. rewrite Hframe; [by apply Hkeep | | done].
        rewrite Hkeep by done. done.
      * rewrite Hrows'. by rewrite <- app_assoc.
      * constructor; [|done].
        assert (Hne : r <> rows_l) by congruence.
        rewrite Hframe; [| |done].
        -- unfold h2. rewrite lookup_insert_ne by done. apply lookup_insert_eq.
        -- unfold h2. rewrite lookup_insert_ne by done.
           rewrite lookup_insert_eq. by eexists.
Qed.

Lemma calculate_quote_heap_spec h rates_l sel_l ex_l rates items ex (d : num) :
  inputs_at h rates_l sel_l ex_l rates items ex ->
  exists h' q_l qo,
    calculate_quote_heap h rates_l sel_l ex_l d = Some (h', q_l) /\
    h !! q_l = None /\
    (forall l, is_Some (h !! l) -> h' !! l = h !! l) /\
    h' !! q_l = Some (OQuote qo) /\
    q_extras qo = ex_l /\
    quote_of_heap h' q_l = Some (calculate_quote rates items ex d).
Proof.
  intros (Hrates & Hex & elems & Hsel & Hitems).
  unfold calculate_quote_heap, heap_alloc.
  set (rows_l := fresh (dom h)).
  set (h0 := <[rows_l := OList []]> h).
  assert (Hfresh : h !! rows_l = None) by apply fresh_loc_unused.
  assert (Hkeep0 : forall l, is_Some (h !! l) -> h0 !! l = h !! l /\ l <> rows_l).
  { intros l [o Hl]. assert (rows_l <> l) by congruence.
    unfold h0. by rewrite lookup_insert_ne. }
  unfold read_list at 1. rewrite (proj1 (Hkeep0 sel_l ltac:(by eexists))), Hsel.
  cbn [mbind option_bind].
  destruct (quote_loop_heap_spec rates_l rows_l rates elems items h0 (of_int 0) [])
    as (h1 & elems' & Hrun & Hframe & Hrows & Hnew).
  { by rewrite (proj1 (Hkeep0 rates_l ltac:(by eexists))). }
  { apply lookup_insert_eq. }
  { eapply Forall2_impl; [exact Hitems|]. simpl. intros l it Hl.
    by rewrite (proj1 (Hkeep0 l ltac:(by eexists))). }
  rewrite Hrun. cbn [mbind option_bind].
  assert (Hkeep1 : forall l, is_Some (h !! l) -> h1 !! l = h !! l).
  { intros l Hl. destruct (Hkeep0 l Hl) as [Heq Hne].
    rewrite Hframe; [done | by rewrite Heq | done]. }
  unfold read_extras at 1. rewrite (Hkeep1 ex_l ltac:(by eexists)), Hex.
  cbn [mbind option_bind].
  set (q_l := fresh (dom h1)).
  assert (Hq : h1 !! q_l = None) by apply fresh_loc_unused.
  match goal with |- context [OQuote ?q] => set (qo := q) end.
  set (h' := <[q_l := OQuote qo]> h1).
  assert (Hkeep' : forall l, is_Some (h1 !! l) -> h' !! l = h1 !! l).
  { intros l [o Hl]. assert (q_l <> l) by congruence.
    unfold h'. by rewrite lookup_insert_ne. }
  exists h', q_l, qo. split; [done|]. split; [|split; [|split; [|split]]].
  - destruct (h !! q_l) as [o|] eqn:Hl; [|done].
    rewrite <- (Hkeep1 q_l) in Hl by (by eexists). congruence.
  - intros l Hl. rewrite Hkeep' by (by rewrite Hkeep1). by apply Hkeep1.
  - apply lookup_insert_eq.
  - done.
  - assert (Hq' : h' !! q_l = Some (OQuote qo)) by apply lookup_insert_eq.
    unfold quote_of_heap, read_quote. rewrite Hq'.
    cbn [mbind option_bind].
    change (q_rows qo) with rows_l. change (q_extras qo) with ex_l.
    unfold read_list. rewrite Hkeep' by (by rewrite Hrows). rewrite Hrows.
    cbn [mbind option_bind app].
    assert (Hread : mapM (read_row h') elems' = Some (row_of rates <$> items)).
    { apply mapM_Some. eapply Forall2_impl; [exact Hnew|]. simpl. intros l r Hl.
      unfold read_row. rewrite Hkeep' by (by rewrite Hl). by rewrite Hl. }
    rewrite Hread. cbn [mbind option_bind].
    unfold read_extras. rewrite Hkeep' by (rewrite Hkeep1; by eexists).
    rewrite (Hkeep1 ex_l ltac:(by eexists)), Hex. cbn [mbind option_bind].
    by rewrite calculate_quote_unfold.
Qed.

(** Whatever a heap change keeps, the arguments and earlier results keep. *)
Lemma inputs_at_preserved h h' rates_l sel_l ex_l rates items ex :
  (forall l, is_Some (h !! l) -> h' !! l = h !! l) ->
  inputs_at h rates_l sel_l ex_l rates items ex ->
  inputs_at h' rates_l sel_l ex_l rates items ex.
Proof.
  intros Hkeep (Hrates & Hex & elems & Hsel & Hitems).
  split; [|split].
  - rewrite Hkeep; [done | by eexists].
  - rewrite Hkeep; [done | by eexists].
  - exists elems. split; [rewrite Hkeep; [done | by eexists]|].
    eapply Forall2_impl; [exact Hitems|]. simpl. intros l it Hl.
    rewrite Hkeep; [done | by eexists].
Qed.

Lemma quote_of_heap_preserved h h' q_l (q : QuoteComputation num) :
  (forall l, is_Some (h !! l) -> h' !! l = h !! l) ->
  quote_of_heap h q_l = Some q ->
  quote_of_heap h' q_l = Some q.
Proof.
  intros Hkeep. unfold quote_of_heap, read_quote, read_list, read_extras.
  destruct (h !! q_l) as [[| | | | |qo]|] eqn:Hq; try discriminate.
  rewrite (Hkeep q_l), Hq by (by eexists). cbn [mbind option_bind].
  destruct (h !! q_rows qo) as [[| | |elems| |]|] eqn:Hr; try discriminate.
  rewrite (Hkeep (q_rows qo)), Hr by (by eexists). cbn [mbind option_bind].
  destruct (mapM (read_row h) elems) as [rs|] eqn:Hrs; [|discriminate].
  assert (Hrs' : mapM (read_row h') elems = Some rs).
  { apply mapM_Some. apply mapM_Some in Hrs.
    eapply Forall2_impl; [exact Hrs|]. simpl. intros l r. unfold read_row.
    destruct (h !! l) as [o|] eqn:Hl; [|discriminate].
    by rewrite (Hkeep l), Hl by (by eexists). }
  rewrite Hrs'. cbn [mbind option_bind].
  destruct (h !! q_extras qo) as [[| |e| | |]|] eqn:He; try discriminate.
  by rewrite (Hkeep (q_extras qo)), He by (by eexists).
Qed.

End HeapFacts.

(** ** The pricing identities, in the arithmetic of the code *)

Section Identities.
Context {num : Type} `{PyNumber num}.
Local Open Scope py_scope.
Implicit Types (rates : gmap string num) (items : list (selection num)).
Implicit Types (ex : extras_dict num) (d : num).


End Identities.


(** ** Zero quantities, unknown items and the worked examples *)

Section Exact.
Local Open Scope Q_scope.
Implicit Types (rates : gmap string Q) (items : list (selection Q)).
Implicit Types (ex : extras_dict Q) (d : Q).

(** C2, the claim as stated fails: a selection of quantity 0 is not dropped,
    it gets a row like any other (with quantity 0 and line total 0). *)
Lemma zero_quantity_selection_keeps_its_row :
  rows (calculate_quote {["Cement" := 420]} [Selection "Cement" 0 None] [] 0)
  = [Row "Cement" 0 420 0].
Proof. vm_compute. reflexivity. Qed.

(** C2, amended. [calculate_quote] drops nothing: the row at the position
    of a selection of quantity 0 carries its name, quantity 0 and line
    total 0.  Zero quantities are kept out by the caller: the selection
    list built by the "Quote Builder" page holds only quantities that
    passed [qty > 0], so every row computed from it has a positive
    quantity. *)
Theorem zero_quantity_row_kept_caller_filters rates ex d :
  (forall items i it,
     items !! i = Some it -> sel_qty it == 0 ->
     exists r, rows (calculate_quote rates items ex d) !! i = Some r /\
               Item r = sel_name it /\ Qty r == 0 /\ Total r == 0) /\
  (forall cat include qty_of,
     Forall (fun r => 0 < Qty r)
       (rows (calculate_quote rates
                (quote_builder_selected_items cat include qty_of) ex d))).
Proof.
  split.
  - intros items i it Hi Hq. exists (row_of rates it).
    rewrite rows_calculate_quote, list_lookup_fmap, Hi.
    split; [reflexivity|]. split; [reflexivity|]. split; [exact Hq|].
    cbn [Total row_of mul Q_number]. rewrite Hq. ring.
  - intros cat include qty_of. rewrite rows_calculate_quote.
    apply Forall_fmap.
    eapply Forall_impl; [apply quote_builder_selected_items_positive|].
    intros it Hgt. cbn [gt of_int Q_number] in Hgt. cbn [compose Qty row_of].
    apply negb_true_iff in Hgt. apply Qnot_le_lt. intros Hle.
    apply Qle_bool_iff in Hle. change (inject_Z 0) with 0 in Hgt. congruence.
Qed.

Lemma zero_quantity_row_kept_caller_filters_witness :
  exists r,
    rows (calculate_quote {["Cement" := 420]}
            [Selection "Cement" 0 None; Selection "Sand" 2 None] [] 0) !! 0%nat = Some r /\
    Item r = "Cement" /\ Qty r == 0 /\ Total r == 0.
Proof.
  apply (proj1 (zero_quantity_row_kept_caller_filters {["Cement" := 420]} [] 0)
           [Selection "Cement" 0 None; Selection "Sand" 2 None] 0%nat
           (Selection "Cement" 0 None)); reflexivity.
Defined.

(** C3. A selection whose item name is absent from the catalog gets a row
    with unit price 0 and line total 0, and the call returns: run on any
    heap that holds the arguments, it ends with a dict whose value is the
    quote computed here. *)
Theorem unknown_item_priced_at_zero rates items ex d i it :
  items !! i = Some it ->
  rates !! sel_name it = None ->
  (exists r, rows (calculate_quote rates items ex d) !! i = Some r /\
             Item r = sel_name it /\ Qty r = sel_qty it /\
             Unit_Price r = 0 /\ Total r == 0) /\
  (forall h rates_l sel_l ex_l,
     inputs_at h rates_l sel_l ex_l rates items ex ->
     exists h' q_l,
       calculate_quote_heap h rates_l sel_l ex_l d = Some (h', q_l) /\
       quote_of_heap h' q_l = Some (calculate_quote rates items ex d)).
Proof.
  intros Hi Hnone. split.
  - exists (row_of rates it).
    rewrite rows_calculate_quote, list_lookup_fmap, Hi.
    split; [reflexivity|].
    unfold row_of, dict_get. rewrite Hnone.
    cbn [Item Qty Unit_Price Total mul of_int Q_number].
    do 3 (split; [reflexivity|]). ring.
  - intros h rates_l sel_l ex_l Hin.
    destruct (calculate_quote_heap_spec h rates_l sel_l ex_l rates items ex d Hin)
      as (h' & q_l & qo & Hrun & _ & _ & _ & _ & Hval).
    by exists h', q_l.
Qed.

Lemma unknown_item_priced_at_zero_witness :
  exists r,
    rows (calculate_quote {["Cement" := 420]} [Selection "Paint" 5 None] [] 0) !! 0%nat
      = Some r /\
    Item r = "Paint" /\ Qty r = 5 /\ Unit_Price r = 0 /\ Total r == 0.
Proof.
  apply (unknown_item_priced_at_zero {["Cement" := 420]} [Selection "Paint" 5 None] [] 0
           0%nat (Selection "Paint" 5 None)); reflexivity.
Defined.

(** C4. The two worked examples: catalog ["Cement": 420], one selection of
    10 "Cement", GST 18%.  With extras ["Design Fee": 1000] and a discount
    of 10% the call returns subtotal 5200, discount 520, taxable 4680, tax
    842.4 and grand total 5522.4; with no extras and no discount it returns
    4200, 0, 4200, 756 and 4956.  Both hold in exact arithmetic and, bit for
    bit, in binary64 (a decimal literal denoting, as in Python, the nearest
    binary64). *)
Theorem cement_examples :
  (let q := calculate_quote (num := Q) {["Cement" := 420]}
              [Selection "Cement" 10 None] [("Design Fee", 1000)] 10 in
   GST_PERCENT = 18%Z /\ length (rows q) = 1%nat /\
   subtotal q == 5200 /\ discount_amt q == 520 /\ taxable q == 4680 /\
   gst_amt q == 842.4 /\ grand_total q == 5522.4) /\
  (let q := calculate_quote (num := Q) {["Cement" := 420]}
              [Selection "Cement" 10 None] [] 0 in
   subtotal q == 4200 /\ discount_amt q == 0 /\ taxable q == 4200 /\
   gst_amt q == 756 /\ grand_total q == 4956) /\
  (let q := calculate_quote (num := float) {["Cement" := 420%float]}
              [Selection "Cement" 10%float None] [("Design Fee", 1000%float)] 10%float in
   subtotal q = 5200%float /\ discount_amt q = 520%float /\ taxable q = 4680%float /\
   gst_amt q = 842.4%float /\ grand_total q = 5522.4%float) /\
  (let q := calculate_quote (num := float) {["Cement" := 420%float]}
              [Selection "Cement" 10%float None] [] 0%float in
   subtotal q = 4200%float /\ discount_amt q = 0%float /\ taxable q = 4200%float /\
   gst_amt q = 756%float /\ grand_total q = 4956%float).
Proof. cbv zeta. repeat split; vm_compute; reflexivity. Qed.

End Exact.

(** ** Signs of the amounts, in binary64 *)

Section Signs.
Local Open Scope float_scope.
Implicit Types (rates : gmap string float) (items : list (selection float)).
Implicit Types (ex : extras_dict float) (d : float).

Lemma of_int_0 : of_int 0 = 0.
Proof. vm_compute. reflexivity. Qed.

Lemma of_int_100 : of_int 100 = 100.
Proof. vm_compute. reflexivity. Qed.

Lemma of_int_GST_PERCENT : of_int GST_PERCENT = 18.
Proof. vm_compute. reflexivity. Qed.

Lemma line_totals_nonneg rates items :
  (forall name rate, rates !! name = Some rate -> finite_nonneg rate) ->
  Forall (fun it => finite_nonneg (sel_qty it)) items ->
  Forall (fun r => (0 <=? Unit_Price r) = true /\ (0 <=? Total r) = true)
         (row_of rates <$> items).
Proof.
  intros Hrates Hqty. apply Forall_fmap.
  eapply Forall_impl; [exact Hqty|]. intros it [Hfq Hq].
  cbn [compose Unit_Price Total row_of mul float_number].
  assert (Hrate : finite_nonneg (dict_get rates (sel_name it) (of_int 0))).
  { unfold dict_get. destruct (rates !! sel_name it) as [v|] eqn:Hv.
    - by eapply Hrates.
    - split; vm_compute; reflexivity. }
  destruct Hrate as [Hfr Hr].
  split; [exact Hr|]. by apply float_mul_nonneg.
Qed.

Lemma foldl_add_nonneg (xs : list float) (s : float) :
  (0 <=? s) = true -> Forall (fun x => (0 <=? x) = true) xs ->
  (0 <=? foldl add s xs) = true.
Proof.
  intros Hs Hxs. revert s Hs.
  induction Hxs as [|x xs Hx _ IH]; intros s Hs; [exact Hs|].
  cbn [foldl]. apply IH. cbn [add float_number]. by apply float_add_nonneg.
Qed.

Lemma subtotal_nonneg rates items ex d :
  finite_nonneg_inputs rates items ex ->
  (0 <=? subtotal (calculate_quote rates items ex d)) = true.
Proof.
  intros (Hrates & Hqty & Hex). rewrite calculate_quote_unfold. cbn [subtotal].
  cbn [add float_number]. apply float_add_nonneg.
  - apply foldl_add_nonneg; [by vm_compute|].
    apply Forall_fmap. eapply Forall_impl; [by apply line_totals_nonneg|].
    by intros r [_ Hr].
  - destruct ex as [|kv ex]; [by vm_compute|]. cbn [truthy]. unfold py_sum.
    apply foldl_add_nonneg; [by vm_compute|].
    apply Forall_fmap. eapply Forall_impl; [exact Hex|]. by intros ? [_ ?].
Qed.

(** The amounts computed from a finite non-negative subtotal [s]. *)
Lemma amounts_nonneg_of_subtotal (s d : float) :
  is_finite s = true -> (0 <=? s) = true -> is_finite d = true ->
  let discount_amt := s * (d / 100) in
  let taxable := s - discount_amt in
  let gst_amt := taxable * 18 / 100 in
  ((0 <=? d) = true -> (0 <=? discount_amt) = true) /\
  ((0 <=? d) = true -> (d <=? 100) = true -> (discount_amt <=? s) = true) /\
  ((d <=? 100) = true ->
   (0 <=? taxable) = true /\ (0 <=? gst_amt) = true /\ (0 <=? taxable + gst_amt) = true).
Proof.
  intros Hfs Hs Hfd. cbv zeta.
  assert (H100 : (1 <=? 100) = true /\ is_finite 100 = true /\ is_zero 100 = false
                 /\ (0 <=? 100) = true) by (repeat split; vm_compute; reflexivity).
  destruct H100 as (H1 & Hf100 & Hz100 & Hn100).
  assert (H18 : (0 <=? 18) = true /\ is_finite 18 = true /\ is_zero 18 = false)
    by (repeat split; vm_compute; reflexivity).
  destruct H18 as (Hn18 & Hf18 & Hz18).
  destruct (float_div_finite d 100 Hfd H1 Hf100) as (Hfx & Hxpos & Hxneg).
  assert (Hrest : forall t, (0 <=? t) = true ->
            (0 <=? t * 18 / 100) = true /\ (0 <=? t + t * 18 / 100) = true).
  { intros t Ht.
    assert ((0 <=? t * 18 / 100) = true).
    { apply float_div_nonneg; try assumption. by apply float_mul_nonneg_pos. }
    split; [assumption|]. by apply float_add_nonneg. }
  split; [|split].
  - intros Hd. apply float_mul_nonneg; auto.
  - intros Hd Hle.
    destruct (float_div_le_one d 100 Hd Hle Hf100 Hz100) as [Hx1 Hx0].
    by destruct (float_mul_le_self s (d / 100) Hfs Hs Hx0 Hx1).
  - intros Hle.
    assert (Ht : (0 <=? s - s * (d / 100)) = true).
    { destruct (0 <=? d) eqn:Hd.
      - destruct (float_div_le_one d 100 Hd Hle Hf100 Hz100) as [Hx1 Hx0].
        destruct (float_mul_le_self s (d / 100) Hfs Hs Hx0 Hx1) as [Hm1 Hm0].
        by apply float_sub_nonneg.
      - pose proof (float_finite_nonneg_or_nonpos d Hfd Hd) as Hd'.
        apply float_sub_nonpos; try assumption.
        apply float_mul_nonpos; auto. }
    split; [exact Ht|]. by apply Hrest.
Qed.

(** C7, the claim as stated fails.  With finite non-negative prices,
    quantities and extras: the tax amount, which the claim counts among the
    fields that are never negative, is -756 at a discount of 200;
    discount_amt is negative at a discount of -10, which does not exceed
    100; and when the subtotal overflows (10^308 bags of cement, no
    discount) the taxable amount is a nan, which is not [>= 0] either. *)
Lemma negative_tax_and_negative_discount :
  let rates : gmap string float := {["Cement" := 420]} in
  finite_nonneg_inputs rates [Selection "Cement" 10 None] [] /\
  gst_amt (calculate_quote rates [Selection "Cement" 10 None] [] 200) = (-756) /\
  (gst_amt (calculate_quote rates [Selection "Cement" 10 None] [] 200) <? 0) = true /\
  (discount_amt (calculate_quote rates [Selection "Cement" 10 None] [] (-10)) <? 0) = true /\
  (-10 <=? 100) = true /\
  finite_nonneg_inputs rates [Selection "Cement" 1e308 None] [] /\
  (0 <=? taxable (calculate_quote rates [Selection "Cement" 1e308 None] [] 0)) = false.
Proof.
  cbv zeta.
  assert (Hin : forall qty, finite_nonneg qty ->
            finite_nonneg_inputs {["Cement" := 420]} [Selection "Cement" qty None] []).
  { intros qty Hq. split; [|split].
    - intros name v [_ <-]%lookup_singleton_Some. split; vm_compute; reflexivity.
    - repeat constructor; apply Hq.
    - constructor. }
  split; [apply Hin; split; vm_compute; reflexivity|].
  do 4 (split; [vm_compute; reflexivity|]).
  split; [apply Hin; split; vm_compute; reflexivity|].
  vm_compute. reflexivity.
Qed.

(** C7, amended.  With finite non-negative prices, quantities and extra
    charges, in binary64: unit prices, line totals and the subtotal are
    never negative (and never a nan).  When moreover the subtotal has not
    overflowed and discount_percent is finite: discount_amt is non-negative
    when discount_percent is, so it is negative only for a negative
    discount_percent; for a discount_percent between 0 and 100 it is at
    most the subtotal; and taxable, the tax amount and grand_total are
    non-negative when discount_percent is at most 100, so each of the three
    is negative only when discount_percent exceeds 100. *)
Theorem amounts_nonneg_in_binary64 rates items ex d :
  finite_nonneg_inputs rates items ex ->
  let q := calculate_quote rates items ex d in
  Forall (fun r => (0 <=? Unit_Price r) = true /\ (0 <=? Total r) = true) (rows q) /\
  (0 <=? subtotal q) = true /\
  (is_finite (subtotal q) = true -> is_finite d = true ->
   ((0 <=? d) = true -> (0 <=? discount_amt q) = true) /\
   ((0 <=? d) = true -> (d <=? 100) = true -> (discount_amt q <=? subtotal q) = true) /\
   ((d <=? 100) = true ->
    (0 <=? taxable q) = true /\ (0 <=? gst_amt q) = true /\
    (0 <=? grand_total q) = true) /\
   ((discount_amt q <? 0) = true -> (d <? 0) = true) /\
   ((taxable q <? 0) = true \/ (gst_amt q <? 0) = true \/ (grand_total q <? 0) = true ->
    (100 <? d) = true)).
Proof.
  intros Hin. cbv zeta.
  pose proof (subtotal_nonneg rates items ex d Hin) as Hs.
  split; [|split; [exact Hs|]].
  { destruct Hin as (Hrates & Hqty & _).
    rewrite rows_calculate_quote. by apply line_totals_nonneg. }
  intros Hfs Hfd.
  destruct (calculate_quote_amounts rates items ex d) as (Hd & Ht & Hg & Hgt).
  cbv zeta in Hd, Ht, Hg, Hgt.
  cbn [add sub mul truediv float_number] in Hd, Ht, Hg, Hgt.
  rewrite of_int_100 in Hd, Hg. rewrite of_int_GST_PERCENT in Hg.
  destruct (amounts_nonneg_of_subtotal _ d Hfs Hs Hfd) as (Hdisc & Hle & Hrest).
  cbv zeta in Hdisc, Hle, Hrest.
  rewrite <- Hd in Hdisc, Hle, Hrest. rewrite <- Ht in Hrest.
  rewrite <- Hg in Hrest. rewrite <- Hgt in Hrest.
  split; [exact Hdisc|]. split; [exact Hle|]. split; [exact Hrest|]. split.
  - intros Hneg. apply float_not_leb_ltb; [by vm_compute|exact Hfd|].
    destruct (0 <=? d) eqn:H0; [|reflexivity].
    rewrite (float_ltb_not_leb _ _ Hneg) in Hdisc. by specialize (Hdisc eq_refl).
  - intros Hneg. apply float_not_leb_ltb; [exact Hfd|by vm_compute|].
    destruct (d <=? 100) eqn:H100; [|reflexivity].
    destruct (Hrest eq_refl) as (H1 & H2 & H3).
    destruct Hneg as [Hneg|[Hneg|Hneg]]; apply float_ltb_not_leb in Hneg; congruence.
Qed.

End Signs.

Lemma amounts_nonneg_in_binary64_witness :
  let rates : gmap string float := {["Cement" := 420%float]} in
  let q := calculate_quote rates [Selection "Cement" 10%float None]
             [("Design Fee", 1000%float)] 10%float in
  (Forall (fun r => (0 <=? Unit_Price r)%float = true /\ (0 <=? Total r)%float = true) (rows q) /\
   (0 <=? subtotal q)%float = true) /\
  (0 <=? taxable q)%float = true /\ (0 <=? gst_amt q)%float = true /\
  (0 <=? grand_total q)%float = true.
Proof.
  cbv zeta.
  assert (Hin : finite_nonneg_inputs {["Cement" := 420%float]}
                  [Selection "Cement" 10%float None] [("Design Fee", 1000%float)]).
  { split; [|split].
    - intros name v [_ <-]%lookup_singleton_Some. split; vm_compute; reflexivity.
    - repeat constructor; vm_compute; reflexivity.
    - repeat constructor; vm_compute; reflexivity. }
  pose proof (amounts_nonneg_in_binary64 _ _ _ 10%float Hin) as (Hrows & Hsub & Hrest).
  split; [by split|].
  destruct Hrest as (_ & _ & Hthree & _); [vm_compute; reflexivity..|].
  apply Hthree. vm_compute. reflexivity.
Defined.

(** ** The call on Python numbers: when it returns, and with what *)

Section PythonNumbers.
Local Open Scope py_scope.
Implicit Types (x y : pynum) (rates : gmap string pynum).
Implicit Types (items : list (selection pynum)) (ex : extras_dict pynum).

Lemma is_float_converts x : is_float x = true -> converts x.
Proof. by destruct x. Qed.

Lemma is_rate_converts x : is_rate x = true -> converts x.
Proof.
  destruct x as [z|f|e]; try done. unfold converts. cbn.
  intros Hz. apply negb_true_iff in Hz. by rewrite Hz.
Qed.

Lemma zero_or_float_converts x : zero_or_float x -> converts x.
Proof. intros [->|Hf]; [by vm_compute | by apply is_float_converts]. Qed.

(** An operation with a [float] operand is the binary64 operation. *)
Lemma py_binop_float iop (fop : float -> float -> float) x y :
  converts x -> converts y -> is_float x = true \/ is_float y = true ->
  py_binop iop (fun f g => PyFloat (fop f g)) x y
  = PyFloat (fop (to_binary64 x) (to_binary64 y)).
Proof.
  unfold converts. intros Hx Hy Hf.
  destruct x as [a|f|e], y as [b|g|e']; cbn in Hx, Hy |- *;
    try discriminate; try (by destruct Hf).
  - by rewrite Hx.
  - by rewrite Hy.
Qed.

Lemma truediv_by_100 x :
  is_float x = true ->
  x / PyInt 100 = PyFloat (to_binary64 x / float_of_int 100)%float.
Proof. destruct x; try done. Qed.

Lemma add_zero_or_float x y :
  zero_or_float x -> zero_or_float y ->
  zero_or_float (x + y) /\
  to_binary64 (x + y) = (to_binary64 x + to_binary64 y)%float.
Proof.
  intros Hx Hy.
  destruct Hx as [->|Hx], Hy as [->|Hy].
  - split; [by left | by vm_compute].
  - cbn [add python_number]. rewrite py_binop_float;
      [|by vm_compute|by apply is_float_converts|by right]. by split; [right|].
  - cbn [add python_number]. rewrite py_binop_float;
      [|by apply is_float_converts|by vm_compute|by left]. by split; [right|].
  - cbn [add python_number]. rewrite py_binop_float;
      [|by apply is_float_converts..|by left]. by split; [right|].
Qed.

Lemma foldl_add_zero_or_float (xs : list pynum) x :
  zero_or_float x -> Forall (fun y => is_float y = true) xs ->
  zero_or_float (foldl add x xs) /\
  to_binary64 (foldl add x xs) = foldl add (to_binary64 x) (to_binary64 <$> xs).
Proof.
  intros Hx Hxs. revert x Hx.
  induction Hxs as [|y xs Hy _ IH]; intros x Hx; [done|].
  cbn [foldl fmap list_fmap].
  destruct (add_zero_or_float x y Hx ltac:(by right)) as [HP Heq].
  destruct (IH _ HP) as [HP' Heq']. split; [exact HP'|].
  rewrite Heq', Heq. reflexivity.
Qed.

Lemma mul_zero_or_float_float x y :
  converts x -> is_float y = true ->
  is_float (x * y) = true /\ to_binary64 (x * y) = (to_binary64 x * to_binary64 y)%float.
Proof.
  intros Hx Hy. cbn [mul python_number].
  rewrite py_binop_float; [done|done|by apply is_float_converts|by right].
Qed.

Lemma row_of_to_binary64 rates (it : selection pynum) :
  (forall name rate, rates !! name = Some rate -> is_rate rate = true) ->
  is_float (sel_qty it) = true ->
  is_float (Total (row_of rates it)) = true /\
  row_to_binary64 (row_of rates it) =
  row_of (to_binary64 <$> rates) (selection_to_binary64 it).
Proof.
  intros Hrates Hq.
  assert (Hrate : converts (dict_get rates (sel_name it) (of_int 0)) /\
                  to_binary64 (dict_get rates (sel_name it) (of_int 0)) =
                  dict_get (to_binary64 <$> rates) (sel_name it) (of_int 0)).
  { unfold dict_get. rewrite lookup_fmap.
    destruct (rates !! sel_name it) as [v|] eqn:Hv; cbn.
    - split; [|done]. by eapply is_rate_converts, Hrates.
    - split; by vm_compute. }
  destruct Hrate as [Hc Hr].
  destruct (mul_zero_or_float_float _ _ Hc Hq) as [Hf Hm].
  split; [exact Hf|].
  unfold row_to_binary64, row_of, selection_to_binary64.
  cbn [Item Qty Unit_Price Total sel_name sel_qty].
  rewrite Hm, Hr. reflexivity.
Qed.

(** On the numbers the app passes, the call raises nothing and computes,
    in Python's numbers, what the binary64 instance computes. *)
Lemma calculate_quote_on_app_inputs rates items ex d :
  app_inputs rates items ex d ->
  calculate_quote_outcome rates items ex d = inr (calculate_quote rates items ex d) /\
  no_amount_raised (calculate_quote rates items ex d) /\
  quote_to_binary64 (calculate_quote rates items ex d) =
  calculate_quote (to_binary64 <$> rates) (selection_to_binary64 <$> items)
    (extras_to_binary64 ex) (to_binary64 d).
Proof.
  intros (Hrates & Hqty & Hex & Hd).
  unfold calculate_quote_outcome, no_amount_raised. cbv zeta.
  rewrite !calculate_quote_unfold. cbv zeta.
  cbn [grand_total]. unfold quote_to_binary64.
  cbn [rows extras subtotal discount_amt taxable gst_amt grand_total].
  assert (Hvalue : forall x, is_float x = true -> raised x = false) by (by intros []).
  (* the rows *)
  assert (Hrows : Forall (fun y => is_float y = true) (Total <$> (row_of rates <$> items)) /\
                  row_to_binary64 <$> (row_of rates <$> items) =
                  row_of (to_binary64 <$> rates) <$> (selection_to_binary64 <$> items)).
  { clear Hex Hd. induction Hqty as [|it items Hq _ [IH1 IH2]]; [by split|].
    destruct (row_of_to_binary64 rates it Hrates Hq) as [Hf Hr].
    cbn [fmap list_fmap]. split; [by constructor|]. by rewrite Hr, IH2. }
  destruct Hrows as [Htot Hrows].
  assert (Hlines : Forall (fun r : row pynum =>
                             raised (Unit_Price r) = false /\ raised (Total r) = false)
                          (row_of rates <$> items)).
  { apply Forall_fmap. eapply Forall_impl; [exact Hqty|]. intros it Hq.
    destruct (row_of_to_binary64 rates it Hrates Hq) as [Hf _].
    split; [|by apply Hvalue].
    cbn [compose Unit_Price row_of]. unfold dict_get.
    destruct (rates !! sel_name it) as [v|] eqn:Hv; [|done].
    specialize (Hrates _ _ Hv). by destruct v. }
  assert (Htotals : to_binary64 <$> (Total <$> (row_of rates <$> items)) =
                    Total <$> (row_of (to_binary64 <$> rates) <$>
                               (selection_to_binary64 <$> items))).
  { rewrite <- Hrows. rewrite <- !list_fmap_compose. reflexivity. }
  (* the running sum *)
  destruct (foldl_add_zero_or_float (Total <$> (row_of rates <$> items)) (of_int 0)
              ltac:(by left) Htot) as [Hloop Hloop'].
  set (loop := foldl add (of_int 0) (Total <$> (row_of rates <$> items))) in *.
  (* the extras *)
  set (extras_total := if truthy ex then py_sum (ex.*2) else of_int 0).
  assert (Hext : zero_or_float extras_total /\
                 to_binary64 extras_total =
                 (if truthy (extras_to_binary64 ex)
                  then py_sum ((extras_to_binary64 ex).*2) else of_int 0)).
  { unfold extras_total.
    assert (Htr : truthy (extras_to_binary64 ex) = truthy ex) by (by destruct ex).
    assert (Hvals : (extras_to_binary64 ex).*2 = to_binary64 <$> ex.*2).
    { unfold extras_to_binary64. rewrite <- !list_fmap_compose. reflexivity. }
    rewrite Htr, Hvals. destruct (truthy ex); [|split; [by left|by vm_compute]].
    unfold py_sum.
    assert (Hvs : Forall (fun y => is_float y = true) (ex.*2))
      by (apply Forall_fmap; exact Hex).
    exact (foldl_add_zero_or_float (ex.*2) (of_int 0) (or_introl eq_refl) Hvs). }
  destruct Hext as [Hext Hext'].
  destruct (add_zero_or_float loop extras_total Hloop Hext) as [Hsub Hsub'].
  set (s := loop + extras_total) in *.
  (* the amounts *)
  change (@of_int pynum _ 100) with (PyInt 100).
  rewrite (truediv_by_100 d Hd).
  destruct (mul_zero_or_float_float s (PyFloat (to_binary64 d / float_of_int 100))
              (zero_or_float_converts s Hsub) eq_refl) as [Hdisc Hdisc'].
  set (disc := s * PyFloat (to_binary64 d / float_of_int 100)) in *.
  assert (Htax : is_float (s - disc) = true /\
                 to_binary64 (s - disc) = (to_binary64 s - to_binary64 disc)%float).
  { cbn [sub python_number]. rewrite py_binop_float;
      [done|by apply zero_or_float_converts|by apply is_float_converts|by right]. }
  destruct Htax as [Htax Htax'].
  set (t := s - disc) in *.
  assert (Ht18 : t * of_int GST_PERCENT
                 = PyFloat (to_binary64 t * float_of_int GST_PERCENT)).
  { cbn [mul python_number of_int]. rewrite py_binop_float;
      [done|by apply is_float_converts|by vm_compute|by left]. }
  rewrite Ht18.
  rewrite (truediv_by_100 (PyFloat _) eq_refl).
  cbn [to_binary64].
  set (g := (to_binary64 t * float_of_int GST_PERCENT / float_of_int 100)%float).
  assert (Hgrand : t + PyFloat g = PyFloat (to_binary64 t + g)).
  { cbn [add python_number]. rewrite py_binop_float;
      [done|by apply is_float_converts|done|by right]. }
  rewrite Hgrand. split; [reflexivity|]. split.
  { split; [exact Hlines|].
    repeat split; try (by apply Hvalue).
    destruct Hsub as [Hs0|Hsf]; [by rewrite Hs0 | by apply Hvalue]. }
  subst g. cbn [to_binary64].
  rewrite Hrows, Htax', Hdisc', Hsub', Hloop', Hext', Htotals.
  cbn [to_binary64 add sub mul truediv of_int float_number].
  reflexivity.
Qed.

End PythonNumbers.

(** ** Degenerate inputs, in binary64 *)

Section Degenerate.
Local Open Scope float_scope.
Implicit Types (rates : gmap string float) (items : list (selection float)).
Implicit Types (ex : extras_dict float) (d : float).

Lemma foldl_add_zero (xs : list float) (s : float) :
  is_zero s = true -> Forall (fun x => is_zero x = true) xs ->
  is_zero (foldl add s xs) = true.
Proof.
  intros Hs Hxs. revert s Hs.
  induction Hxs as [|x xs Hx _ IH]; intros s Hs; [exact Hs|].
  cbn [foldl]. apply IH. cbn [add float_number]. by apply float_add_zero.
Qed.

Lemma line_totals_zero rates items :
  Forall (fun it => is_finite (sel_qty it) = true) items ->
  (forall name rate, rates !! name = Some rate -> is_zero rate = true) ->
  Forall (fun r => is_zero (Total r) = true) (row_of rates <$> items).
Proof.
  intros Hqty Hz. apply Forall_fmap.
  eapply Forall_impl; [exact Hqty|]. intros it Hq.
  cbn [compose Total row_of mul float_number].
  apply float_mul_zero_l; [|exact Hq].
  unfold dict_get. destruct (rates !! sel_name it) as [v|] eqn:Hv.
  - by eapply Hz.
  - by vm_compute.
Qed.

(** Every amount computed from a zero subtotal is zero. *)
Lemma amounts_zero_of_subtotal (s d : float) :
  is_zero s = true -> is_finite d = true ->
  let discount_amt := s * (d / 100) in
  let taxable := s - discount_amt in
  let gst_amt := taxable * 18 / 100 in
  is_zero discount_amt = true /\ is_zero taxable = true /\
  is_zero gst_amt = true /\ is_zero (taxable + gst_amt) = true.
Proof.
  intros Hs Hd. cbv zeta.
  destruct (float_div_finite d 100 Hd) as (Hfx & _); [by vm_compute..|].
  assert (H1 : is_zero (s * (d / 100)) = true) by (by apply float_mul_zero_l).
  assert (H2 : is_zero (s - s * (d / 100)) = true) by (by apply float_sub_zero).
  assert (H3 : is_zero ((s - s * (d / 100)) * 18 / 100) = true).
  { apply float_div_zero_l; [|by vm_compute..]. apply float_mul_zero_l; [done|by vm_compute]. }
  repeat split; try assumption. by apply float_add_zero.
Qed.

Lemma calculate_quote_zero_valued rates items d :
  is_finite d = true ->
  Forall (fun it => is_finite (sel_qty it) = true) items ->
  items = [] \/ rates = ∅ \/
    (forall name rate, rates !! name = Some rate -> is_zero rate = true) ->
  let q := calculate_quote rates items [] d in
  (items = [] -> rows q = []) /\
  Forall (fun r => is_zero (Total r) = true) (rows q) /\
  is_zero (subtotal q) = true /\ is_zero (discount_amt q) = true /\
  is_zero (taxable q) = true /\ is_zero (gst_amt q) = true /\
  is_zero (grand_total q) = true.
Proof.
  intros Hd Hqty Hdeg. cbv zeta.
  assert (Hrows : Forall (fun r => is_zero (Total r) = true) (row_of rates <$> items)).
  { destruct Hdeg as [-> | [-> | Hz]].
    - constructor.
    - apply line_totals_zero; [done|]. intros name v Hv. by rewrite lookup_empty in Hv.
    - by apply line_totals_zero. }
  assert (Hsub : is_zero (subtotal (calculate_quote rates items [] d)) = true).
  { rewrite calculate_quote_unfold. cbn [subtotal truthy add float_number].
    apply float_add_zero; [|by vm_compute].
    apply foldl_add_zero; [by vm_compute|]. by apply Forall_fmap. }
  destruct (calculate_quote_amounts rates items [] d) as (Ed & Et & Eg & Egt).
  cbv zeta in Ed, Et, Eg, Egt.
  cbn [add sub mul truediv float_number] in Ed, Et, Eg, Egt.
  rewrite of_int_100 in Ed, Eg. rewrite of_int_GST_PERCENT in Eg.
  destruct (amounts_zero_of_subtotal _ d Hsub Hd) as (H1 & H2 & H3 & H4).
  cbv zeta in H1, H2, H3, H4.
  rewrite <- Ed in H1, H2, H3, H4. rewrite <- Et in H2, H3, H4.
  rewrite <- Eg in H3, H4. rewrite <- Egt in H4.
  split; [intros ->; by rewrite rows_calculate_quote|].
  split; [by rewrite rows_calculate_quote|].
  by repeat split.
Qed.

End Degenerate.

(** C6, the claim as stated fails, in both halves.  A degenerate selection
    or catalog does not give a zero-valued quote when there are extra
    charges: with no selection, or with an empty catalog, and a design fee
    of 1000 the subtotal is 1000 and the grand total 1180.  And the call is
    not total on Python's numbers: an [int] quantity of 10^400 makes the
    discount raise [OverflowError]. *)
Lemma extras_are_charged_and_huge_int_raises :
  (let q := calculate_quote (num := float) SAMPLE_RATES [] [("Design Fee", 1000%float)]
              0%float in
   rows q = [] /\ subtotal q = 1000%float /\ grand_total q = 1180%float) /\
  (let q := calculate_quote (num := float) ∅ [Selection "Cement" 10%float None]
              [("Design Fee", 1000%float)] 0%float in
   Total <$> rows q = [0%float] /\ subtotal q = 1000%float /\ grand_total q = 1180%float) /\
  calculate_quote_outcome SAMPLE_RATES
    [Selection "Cement (bag, 50kg)" (PyInt (10 ^ 400)) None] [] (PyInt 0)
  = inl OverflowError.
Proof. cbv zeta. repeat split; vm_compute; reflexivity. Qed.

(** C6, amended.  On the numbers the app passes (float quantities, extra
    charges and discount; rates that are floats, or ints that [float(_)]
    converts) the call raises nothing: it returns the dict, no line or
    amount of which is an exception, and its amounts are the binary64
    amounts.  Without extra charges, with a finite discount and finite
    quantities, a degenerate input (no selection, an empty catalog or a
    catalog of zero prices) gives a zero-valued quote: every line total,
    the subtotal, the discount, the taxable amount, the tax and the grand
    total are equal to 0, and there is no row when there is no selection.
    With extra charges an empty selection has 0 plus their sum as its
    subtotal. *)
Theorem calculate_quote_returns_and_zero_on_degenerate :
  (forall rates items ex d,
     app_inputs rates items ex d ->
     calculate_quote_outcome rates items ex d = inr (calculate_quote rates items ex d) /\
     no_amount_raised (calculate_quote rates items ex d) /\
     quote_to_binary64 (calculate_quote rates items ex d) =
     calculate_quote (to_binary64 <$> rates) (selection_to_binary64 <$> items)
       (extras_to_binary64 ex) (to_binary64 d)) /\
  (forall (rates : gmap string float) items d,
     is_finite d = true ->
     Forall (fun it => is_finite (sel_qty it) = true) items ->
     items = [] \/ rates = ∅ \/
       (forall name rate, rates !! name = Some rate -> is_zero rate = true) ->
     let q := calculate_quote rates items [] d in
     (items = [] -> rows q = []) /\
     Forall (fun r => is_zero (Total r) = true) (rows q) /\
     is_zero (subtotal q) = true /\ is_zero (discount_amt q) = true /\
     is_zero (taxable q) = true /\ is_zero (gst_amt q) = true /\
     is_zero (grand_total q) = true) /\
  (forall (rates : gmap string float) ex d,
     let q := calculate_quote rates [] ex d in
     rows q = [] /\
     subtotal q = (0 + (if truthy ex then py_sum (ex.*2) else 0))%float).
Proof.
  split; [exact calculate_quote_on_app_inputs|].
  split; [exact calculate_quote_zero_valued|].
  intros rates ex d. cbv zeta. rewrite calculate_quote_unfold.
  cbn [rows subtotal fmap list_fmap foldl add float_number].
  rewrite of_int_0. done.
Qed.

Lemma calculate_quote_returns_and_zero_on_degenerate_witness :
  (let rates : gmap string pynum := {["Cement" := PyInt 420]} in
   let items := [Selection "Cement" (PyFloat 10) None] in
   let ex := [("Design Fee", PyFloat 1000)] in
   calculate_quote_outcome rates items ex (PyFloat 10)
   = inr (calculate_quote rates items ex (PyFloat 10))) /\
  (let q := calculate_quote (num := float) {["Cement" := 0%float]}
              [Selection "Cement" 10%float None; Selection "Paint" 2.5%float None] []
              10%float in
   Forall (fun r => is_zero (Total r) = true) (rows q) /\
   is_zero (subtotal q) = true /\ is_zero (grand_total q) = true).
Proof.
  cbv zeta. split.
  - refine (proj1 (proj1 calculate_quote_returns_and_zero_on_degenerate _ _ _ _ _)).
    split; [|split; [|split]].
    + intros name v [_ <-]%lookup_singleton_Some. vm_compute. reflexivity.
    + repeat constructor.
    + repeat constructor.
    + reflexivity.
  - destruct (proj1 (proj2 calculate_quote_returns_and_zero_on_degenerate)
                {["Cement" := 0%float]}
                [Selection "Cement" 10%float None; Selection "Paint" 2.5%float None]
                10%float) as (_ & Hrows & Hsub & _ & _ & _ & Hgrand).
    + vm_compute. reflexivity.
    + repeat constructor; vm_compute; reflexivity.
    + right. right. intros name v [_ <-]%lookup_singleton_Some. vm_compute. reflexivity.
    + by repeat split.
Defined.

(** ** Rows, order and effects, for any kind of number *)

Section Structure.
Context {num : Type} `{PyNumber num}.
Local Open Scope py_scope.
Implicit Types (h : gmap loc (obj num)) (rates : gmap string num).
Implicit Types (items : list (selection num)) (ex : extras_dict num) (d : num).

(** C9. The rows are the selections, one for one: as many rows as
    selections, and at every position the row carries the name and the
    quantity of the selection at that position, whatever the quantity and
    whether or not the name is in the catalog. *)
Theorem one_row_per_selection rates items ex d :
  let q := calculate_quote rates items ex d in
  length (rows q) = length items /\
  forall i,
    (fun r => (Item r, Qty r)) <$> rows q !! i =
    (fun it => (sel_name it, sel_qty it)) <$> items !! i.
Proof.
  cbv zeta. rewrite rows_calculate_quote. split.
  - apply length_fmap.
  - intros i. rewrite list_lookup_fmap. by destruct (items !! i).
Qed.

(** C8. Rows come in the order of the selections, and the item table of
    the PDF is the header, then one line per selection in that order, then
    one line per extra charge in the order of the extras dict, which the
    quote carries as it was given. *)
Theorem rows_then_extras_in_order rates items ex d :
  let q := calculate_quote rates items ex d in
  Item <$> rows q = sel_name <$> items /\
  extras q = ex /\
  generate_pdf_bytes_data q =
    [[Text "Item"; Text "Qty"; Text "Unit Price (₹)"; Text "Total (₹)"]] ++
    ((fun it =>
        let rate := dict_get rates (sel_name it) (of_int 0) in
        [Text (sel_name it); Number (sel_qty it); Grouped rate; Grouped (rate * sel_qty it)])
       <$> items) ++
    ((fun kv => [Text kv.1; Text "-"; Text "-"; Grouped kv.2]) <$> ex).
Proof.
  cbv zeta. split; [|split].
  - rewrite rows_calculate_quote, <- list_fmap_compose. done.
  - apply extras_calculate_quote.
  - unfold generate_pdf_bytes_data.
    rewrite rows_calculate_quote, extras_calculate_quote.
    rewrite (foldl_append_lines
               (fun r => [Text (Item r); Number (Qty r);
                          Grouped (Unit_Price r); Grouped (Total r)])).
    rewrite <- list_fmap_compose.
    assert (Hextras : forall acc : list (list (cell num)),
      foldl (fun data kv => let '(k, v) := kv in
                            data ++ [[Text k; Text "-"; Text "-"; Grouped v]]) acc ex =
      acc ++ ((fun kv => [Text kv.1; Text "-"; Text "-"; Grouped kv.2]) <$> ex)).
    { induction ex as [|[k v] ex' IH]; intros acc; simpl.
      - by rewrite app_nil_r.
      - rewrite IH. by rewrite <- app_assoc. }
    destruct (truthy ex) eqn:Hex.
    + rewrite Hextras. by rewrite <- app_assoc.
    + destruct ex; [|discriminate]. by rewrite app_nil_r.
Qed.

(** C10. A call leaves its inputs as they were: in the heap it ends in,
    every object that existed before the call is unchanged, so the list of
    selections and its dicts, the extras dict and the global price list
    hold the values they held; and the ['extras'] entry of the returned
    dict is the reference that was passed in, so it holds the same extras. *)
Theorem calculate_quote_leaves_inputs_unchanged h rates_l sel_l ex_l rates items ex d :
  inputs_at h rates_l sel_l ex_l rates items ex ->
  exists h' q_l q,
    calculate_quote_heap h rates_l sel_l ex_l d = Some (h', q_l) /\
    (forall l, is_Some (h !! l) -> h' !! l = h !! l) /\
    inputs_at h' rates_l sel_l ex_l rates items ex /\
    q_extras <$> read_quote h' q_l = Some ex_l /\
    quote_of_heap h' q_l = Some q /\
    extras q = ex.
Proof.
  intros Hin.
  destruct (calculate_quote_heap_spec h rates_l sel_l ex_l rates items ex d Hin)
    as (h' & q_l & qo & Hrun & _ & Hkeep & Hq & Halias & Hval).
  exists h', q_l, (calculate_quote rates items ex d).
  split; [done|]. split; [done|]. split; [by eapply inputs_at_preserved|].
  split; [|split; [done|apply extras_calculate_quote]].
  unfold read_quote. rewrite Hq. simpl. by rewrite Halias.
Qed.

(** C5. Two calls with identical inputs return identical quotes.  Run on
    any two heaps that hold the same catalog contents, selections and
    extras (at whatever addresses), with the same discount, both calls
    return, and the two returned dicts have the same value in every field.
    In particular for a second call made right after the first, in the heap
    the first one left: it returns the same value again, and the value of
    the first result is still the same afterwards. *)
Theorem calculate_quote_deterministic rates items ex d
    h1 rates_l1 sel_l1 ex_l1 h2 rates_l2 sel_l2 ex_l2 :
  inputs_at h1 rates_l1 sel_l1 ex_l1 rates items ex ->
  inputs_at h2 rates_l2 sel_l2 ex_l2 rates items ex ->
  (exists h1' q1 h2' q2 q,
     calculate_quote_heap h1 rates_l1 sel_l1 ex_l1 d = Some (h1', q1) /\
     calculate_quote_heap h2 rates_l2 sel_l2 ex_l2 d = Some (h2', q2) /\
     quote_of_heap h1' q1 = Some q /\
     quote_of_heap h2' q2 = Some q) /\
  (exists h1' q1 h1'' q1' q,
     calculate_quote_heap h1 rates_l1 sel_l1 ex_l1 d = Some (h1', q1) /\
     calculate_quote_heap h1' rates_l1 sel_l1 ex_l1 d = Some (h1'', q1') /\
     quote_of_heap h1' q1 = Some q /\
     quote_of_heap h1'' q1' = Some q /\
     quote_of_heap h1'' q1 = Some q).
Proof.
  intros Hin1 Hin2.
  destruct (calculate_quote_heap_spec h1 rates_l1 sel_l1 ex_l1 rates items ex d Hin1)
    as (h1' & q1 & qo1 & Hrun1 & _ & Hkeep1 & _ & _ & Hval1).
  destruct (calculate_quote_heap_spec h2 rates_l2 sel_l2 ex_l2 rates items ex d Hin2)
    as (h2' & q2 & qo2 & Hrun2 & _ & _ & _ & _ & Hval2).
  split.
  - by exists h1', q1, h2', q2, (calculate_quote rates items ex d).
  - assert (Hin1' : inputs_at h1' rates_l1 sel_l1 ex_l1 rates items ex)
      by (by eapply inputs_at_preserved).
    destruct (calculate_quote_heap_spec h1' rates_l1 sel_l1 ex_l1 rates items ex d Hin1')
      as (h1'' & q1' & qo1' & Hrun1' & _ & Hkeep1' & _ & _ & Hval1').
    exists h1', q1, h1'', q1', (calculate_quote rates items ex d).
    repeat split; try done.
    by eapply quote_of_heap_preserved.
Qed.

End Structure.

Lemma example_heap_inputs :
  inputs_at example_heap 1%positive 3%positive 4%positive
    {["Cement" := 420%Q]} [Selection "Cement" 10%Q None] [("Design Fee", 1000%Q)].
Proof.
  split; [reflexivity|]. split; [reflexivity|].
  exists [2%positive]. split; [reflexivity|].
  constructor; [reflexivity|constructor].
Defined.

Lemma calculate_quote_leaves_inputs_unchanged_witness :
  exists h' q_l q,
    calculate_quote_heap example_heap 1%positive 3%positive 4%positive 10%Q = Some (h', q_l) /\
    (forall l, is_Some (example_heap !! l) -> h' !! l = example_heap !! l) /\
    inputs_at h' 1%positive 3%positive 4%positive
      {["Cement" := 420%Q]} [Selection "Cement" 10%Q None] [("Design Fee", 1000%Q)] /\
    q_extras <$> read_quote h' q_l = Some 4%positive /\
    quote_of_heap h' q_l = Some q /\
    extras q = [("Design Fee", 1000%Q)].
Proof.
  apply (calculate_quote_leaves_inputs_unchanged example_heap 1%positive 3%positive 4%positive
           {["Cement" := 420%Q]} [Selection "Cement" 10%Q None] [("Design Fee", 1000%Q)] 10%Q).
  exact example_heap_inputs.
Defined.

Lemma example_heap_moved_inputs :
  inputs_at example_heap_moved 7%positive 6%positive 5%positive
    {["Cement" := 420%Q]} [Selection "Cement" 10%Q None] [("Design Fee", 1000%Q)].
Proof.
  split; [reflexivity|]. split; [reflexivity|].
  exists [9%positive]. split; [reflexivity|].
  constructor; [reflexivity|constructor].
Defined.

Lemma calculate_quote_deterministic_witness :
  (exists h1' q1 h2' q2 q,
     calculate_quote_heap example_heap 1%positive 3%positive 4%positive 10%Q = Some (h1', q1) /\
     calculate_quote_heap example_heap_moved 7%positive 6%positive 5%positive 10%Q
       = Some (h2', q2) /\
     quote_of_heap h1' q1 = Some q /\
     quote_of_heap h2' q2 = Some q) /\
  (exists h1' q1 h1'' q1' q,
     calculate_quote_heap example_heap 1%positive 3%positive 4%positive 10%Q = Some (h1', q1) /\
     calculate_quote_heap h1' 1%positive 3%positive 4%positive 10%Q = Some (h1'', q1') /\
     quote_of_heap h1' q1 = Some q /\
     quote_of_heap h1'' q1' = Some q /\
     quote_of_heap h1'' q1 = Some q).
Proof.
  apply (calculate_quote_deterministic
           {["Cement" := 420%Q]} [Selection "Cement" 10%Q None] [("Design Fee", 1000%Q)] 10%Q
           example_heap 1%positive 3%positive 4%positive
           example_heap_moved 7%positive 6%positive 5%positive).
  - exact example_heap_inputs.
  - exact example_heap_moved_inputs.
Defined.

(** The first worked example on the price list of the file, where cement
    is sold by the bag. *)
Example cement_example_sample_rates :
  let q := calculate_quote (num := Q) SAMPLE_RATES
             [Selection "Cement (bag, 50kg)" 10%Q None] [("Design Fee", 1000%Q)] 10%Q in
  (subtotal q == 5200 /\ discount_amt q == 520 /\ taxable q == 4680 /\
   gst_amt q == 842.4 /\ grand_total q == 5522.4)%Q.
Proof. cbv zeta. repeat split; vm_compute; reflexivity. Qed.

(** The worked example on Python's own numbers, written with [int]s as the
    specification writes it: the line total and the subtotal stay [int]s,
    the division makes the discount and what follows [float]s. *)
Example cement_example_python_numbers :
  calculate_quote_outcome SAMPLE_RATES
    [Selection "Cement (bag, 50kg)" (PyInt 10) None] [("Design Fee", PyInt 1000)] (PyInt 10)
  = inr {| rows := [Row "Cement (bag, 50kg)" (PyInt 10) (PyInt 420) (PyInt 4200)];
           extras := [("Design Fee", PyInt 1000)];
           subtotal := PyInt 5200;
           discount_amt := PyFloat 520;
           taxable := PyFloat 4680;
           gst_amt := PyFloat 842.4;
           grand_total := PyFloat 5522.4 |}.
Proof. vm_compute. reflexivity. Qed.

(** The call on [example_heap], run: it allocates the list of rows at
    address 5, the row at 6 and the returned dict at 7. *)
Example calculate_quote_heap_example :
  exists h',
    calculate_quote_heap example_heap 1%positive 3%positive 4%positive 10%Q
      = Some (h', 7%positive) /\
    h' !! 5%positive = Some (OList [6%positive]) /\
    h' !! 3%positive = Some (OList [2%positive]) /\
    (q_rows <$> read_quote h' 7%positive) = Some 5%positive /\
    (q_extras <$> read_quote h' 7%positive) = Some 4%positive /\
    (grand_total <$> quote_of_heap h' 7%positive) =
      Some (grand_total (calculate_quote {["Cement" := 420%Q]}
              [Selection "Cement" 10%Q None] [("Design Fee", 1000%Q)] 10%Q)).
Proof. eexists. repeat split; vm_compute; reflexivity. Qed.

(** ** The sidebar and the Admin page *)

Section AccessFacts.
Context {num : Type} `{PyNumber num}.
Implicit Types (s : session num) (w : sidebar) (ws : list sidebar).
Implicit Types (rates : gmap string num) (company_info : gmap string string).

(** X1. One run of the sidebar leaves the session logged in exactly when
    it was logged in and Logout was not pressed, or it was logged out and
    Login was pressed with user name "admin" and password "admin"; it asks
    for a rerun exactly when the login state changed, and it never touches
    the saved quotes. *)
Theorem login_widget_logged_in_iff s w :
  (logged_in (login_widget s w).1.1 = true <->
     (logged_in s = true /\ logout_button w = false) \/
     (logged_in s = false /\ login_button w = true /\
      username_input w = "admin" /\ password_input w = "admin")) /\
  (login_widget s w).2 = xorb (logged_in s) (logged_in (login_widget s w).1.1) /\
  my_quotes (login_widget s w).1.1 = my_quotes s.
Proof.
  destruct s as [li u mq], w as [lo ui pi lb]. unfold login_widget. simpl.
  destruct li; simpl.
  - destruct lo; simpl; (split; [|done]).
    + split; [discriminate | intros [[_ ?]|[? _]]; discriminate].
    + split; [by left | done].
  - destruct lb; simpl.
    + destruct (String.eqb ui "admin") eqn:Hu; simpl.
      * destruct (String.eqb pi "admin") eqn:Hp; simpl; (split; [|done]).
        -- apply String.eqb_eq in Hu, Hp. split; [by right | done].
        -- apply String.eqb_neq in Hp.
           split; [discriminate | intros [[? _]|(_ & _ & _ & ?)]; done].
      * apply String.eqb_neq in Hu. split; [|done].
        split; [discriminate | intros [[? _]|(_ & _ & ? & _)]; done].
    + split; [|done].
      split; [discriminate | intros [[? _]|(_ & ? & _)]; discriminate].
Qed.

Lemma login_widget_needs_credentials s w :
  logged_in (login_widget s w).1.1 = true ->
  logged_in s = true \/
  (login_button w = true /\ username_input w = "admin" /\ password_input w = "admin").
Proof.
  destruct s as [li u mq], w as [lo ui pi lb]. unfold login_widget. simpl.
  destruct li; [by left|]. simpl.
  destruct lb; [|discriminate]. simpl.
  destruct (String.eqb ui "admin") eqn:Hu; [|discriminate].
  destruct (String.eqb pi "admin") eqn:Hp; [|discriminate].
  apply String.eqb_eq in Hu, Hp. by right.
Qed.

Lemma login_widget_keeps_user s w :
  username s = (if logged_in s then "admin" else "") ->
  username (login_widget s w).1.1 =
    (if logged_in (login_widget s w).1.1 then "admin" else "").
Proof.
  destruct s as [li u mq], w as [lo ui pi lb]. unfold login_widget. simpl.
  destruct li; simpl.
  - by destruct lo.
  - destruct lb; [|done]. simpl.
    destruct (String.eqb ui "admin") eqn:Hu; [|done].
    destruct (String.eqb pi "admin"); [|done].
    simpl. by apply String.eqb_eq in Hu.
Qed.

(** X2. Whatever is typed and pressed in the sidebar, run after run from a
    new session: the stored user name is "admin" when the session is logged
    in and empty when it is not. *)
Theorem logged_in_user_is_admin ws :
  let s := after_sidebar_runs (num := num) new_session ws in
  username s = (if logged_in s then "admin" else "").
Proof.
  cbv zeta. unfold after_sidebar_runs.
  assert (Hgen : forall s0 : session num,
    username s0 = (if logged_in s0 then "admin" else "") ->
    username (foldl (fun s w => (login_widget s w).1.1) s0 ws) =
      (if logged_in (foldl (fun s w => (login_widget s w).1.1) s0 ws)
       then "admin" else "")).
  { induction ws as [|w ws IH]; intros s0 H0; [done|].
    simpl. apply IH. by apply login_widget_keeps_user. }
  by apply Hgen.
Qed.

Lemma after_sidebar_runs_logged_in ws :
  forall s,
  logged_in (after_sidebar_runs s ws) = true ->
  logged_in s = true \/
  exists w, w ∈ ws /\ login_button w = true /\
            username_input w = "admin" /\ password_input w = "admin".
Proof.
  unfold after_sidebar_runs.
  induction ws as [|w ws IH]; intros s Hin; [by left|].
  simpl in Hin. destruct (IH _ Hin) as [Hstep | (w' & Hw' & Hcred)].
  - destruct (login_widget_needs_credentials s w Hstep) as [?|Hcred]; [by left|].
    right. exists w. split; [apply list_elem_of_here | done].
  - right. exists w'. split; [by apply list_elem_of_further | done].
Qed.

(** The rate loop of the Admin page: no [KeyError] when every name it
    visits is a key, and each visited key ends at the value of its input. *)
Lemma admin_rates_loop (rate_input : string -> option num) keys :
  forall rates,
  (forall k, k ∈ keys -> is_Some (rates !! k)) ->
  exists rates',
    foldl (admin_rates_step rate_input) (Some rates) keys = Some rates' /\
    forall k,
      rates' !! k =
      if decide (k ∈ keys)
      then (fun current => default current (rate_input k)) <$> rates !! k
      else rates !! k.
Proof.
  induction keys as [|a keys IH]; intros rates Hkeys.
  - exists rates. split; [done|]. intros k. by rewrite decide_False by apply not_elem_of_nil.
  - destruct (Hkeys a) as [current Ha]; [apply list_elem_of_here|].
    simpl. rewrite Ha. simpl.
    destruct (IH (<[a := default current (rate_input a)]> rates)) as (rates' & Hrun & Hval).
    { intros k Hk. destruct (decide (a = k)) as [->|Hne].
      - rewrite lookup_insert_eq. by eexists.
      - rewrite lookup_insert_ne by done. apply Hkeys. by apply list_elem_of_further. }
    exists rates'. split; [done|]. intros k. rewrite Hval.
    destruct (decide (a = k)) as [->|Hne].
    + rewrite lookup_insert_eq, Ha. rewrite (decide_True _ _ (list_elem_of_here k keys)).
      simpl. destruct (decide (k ∈ keys)); simpl; [|done].
      by destruct (rate_input k).
    + rewrite lookup_insert_ne by done.
      destruct (decide (k ∈ keys)) as [Hk|Hk].
      * by rewrite decide_True by (by apply list_elem_of_further).
      * rewrite decide_False; [done|]. intros [?|?]%elem_of_cons; done.
Qed.

(** X4. For a logged-in session the Admin page raises no [KeyError] and
    keeps the set of items: every rate becomes the value typed for it (or
    stays, when nothing was typed), no item is added or removed, and the
    company details keep their two entries, changed the same way. *)
Theorem admin_page_updates_every_rate s rates keys company_info
    (rate_input : string -> option num) name_input address_input :
  logged_in s = true ->
  (forall k, k ∈ keys <-> is_Some (rates !! k)) ->
  is_Some (company_info !! "name") ->
  is_Some (company_info !! "address") ->
  exists rates' company_info',
    admin_page s rates keys company_info rate_input name_input address_input
      = Some (rates', company_info') /\
    (forall k, rates' !! k =
               (fun current => default current (rate_input k)) <$> rates !! k) /\
    dom rates' = dom rates /\
    company_info' !! "name" =
      (fun current => default current name_input) <$> company_info !! "name" /\
    company_info' !! "address" =
      (fun current => default current address_input) <$> company_info !! "address" /\
    (forall k, k <> "name" -> k <> "address" -> company_info' !! k = company_info !! k).
Proof.
  intros Hlog Hkeys [cn Hcn] [ca Hca].
  destruct (admin_rates_loop rate_input keys rates) as (rates' & Hrun & Hval).
  { intros k Hk. by apply Hkeys. }
  assert (Hrates : forall k, rates' !! k =
            (fun current => default current (rate_input k)) <$> rates !! k).
  { intros k. rewrite Hval. destruct (decide (k ∈ keys)) as [|Hk]; [done|].
    destruct (rates !! k) eqn:Hl; [|done].
    exfalso. apply Hk, Hkeys. by eexists. }
  unfold admin_page, edit_text. rewrite Hlog. simpl. rewrite Hrun. simpl.
  rewrite Hcn. simpl. rewrite lookup_insert_ne by done. rewrite Hca. simpl.
  eexists _, _. split; [done|]. split; [exact Hrates|]. split; [|split; [|split]].
  - apply set_eq. intros k. rewrite !elem_of_dom, Hrates.
    by rewrite fmap_is_Some.
  - rewrite lookup_insert_ne by done. by rewrite lookup_insert_eq.
  - by rewrite lookup_insert_eq.
  - intros k Hn Ha. by rewrite !lookup_insert_ne by done.
Qed.

(** X3. Only the administrator changes prices: if, after any sequence of
    sidebar runs from a new session, the Admin page changes a rate or the
    company details, then in one of those runs Login was pressed with user
    name "admin" and password "admin". *)
Theorem admin_changes_need_admin_login ws rates keys company_info
    (rate_input : string -> option num) name_input address_input rates' company_info' :
  admin_page (after_sidebar_runs new_session ws) rates keys company_info
    rate_input name_input address_input = Some (rates', company_info') ->
  (rates', company_info') <> (rates, company_info) ->
  exists w, w ∈ ws /\ login_button w = true /\
            username_input w = "admin" /\ password_input w = "admin".
Proof.
  intros Hpage Hchanged.
  destruct (logged_in (after_sidebar_runs (num := num) new_session ws)) eqn:Hlog.
  - destruct (after_sidebar_runs_logged_in ws _ Hlog) as [Hnew|Hw]; [discriminate|done].
  - unfold admin_page in Hpage. rewrite Hlog in Hpage. simpl in Hpage. congruence.
Qed.

End AccessFacts.

(** ** The documents *)

Section DocumentFacts.
Context {num : Type} `{PyNumber num}.
Implicit Types (company_info customer_info quote_meta : gmap string string).
Implicit Types (q : QuoteComputation num).

Lemma generate_pdf_bytes_data_length q :
  length (generate_pdf_bytes_data q) = S (length (rows q) + length (extras q)).
Proof.
  unfold generate_pdf_bytes_data.
  rewrite (foldl_append_lines
             (fun r => [Text (Item r); Number (Qty r);
                        Grouped (Unit_Price r); Grouped (Total r)])).
  assert (Hextras : forall (ex : extras_dict num) (acc : list (list (cell num))),
    length (foldl (fun data kv => let '(k, v) := kv in
                                  data ++ [[Text k; Text "-"; Text "-"; Grouped v]]) acc ex) =
    (length acc + length ex)%nat).
  { induction ex as [|[k v] ex IH]; intros acc; simpl; [lia|].
    rewrite IH, length_app. simpl. lia. }
  destruct (truthy (extras q)) eqn:Hex.
  - rewrite Hextras. simpl. by rewrite length_fmap.
  - destruct (extras q); [|discriminate]. simpl. rewrite length_fmap. lia.
Qed.

(** X6. A PDF story always has exactly three page breaks, hence four
    pages of content, and exactly one table, the item table, which has one
    line for the header, one per row and one per extra charge. *)
Theorem generate_pdf_bytes_story_shape company_info customer_info q quote_meta story :
  generate_pdf_bytes company_info customer_info q quote_meta = Some story ->
  length (filter (fun f => is_page_break f = true) story) = 3%nat /\
  omap table_of story = [generate_pdf_bytes_data q] /\
  length (generate_pdf_bytes_data q) = S (length (rows q) + length (extras q)).
Proof.
  intros Hstory. split; [|split; [|apply generate_pdf_bytes_data_length]];
    unfold generate_pdf_bytes in Hstory;
    destruct (company_info !! "name"), (company_info !! "address"),
      (customer_info !! "name"), (customer_info !! "phone"),
      (quote_meta !! "id"), (quote_meta !! "date"); simpl in Hstory; try discriminate;
    injection Hstory as <-; reflexivity.
Qed.

(** X7. The workbook has the sheets Items, Summary and Info in this order;
    Items has one line per row of the quote, in order, with the raw
    numbers; and the extra charges are written nowhere: the workbook of a
    quote is the workbook of the same quote with any other extras. *)
Theorem generate_excel_bytes_omits_extras company_info customer_info q quote_meta sheets :
  generate_excel_bytes company_info customer_info q quote_meta = Some sheets ->
  sheet_name <$> sheets = ["Items"; "Summary"; "Info"] /\
  (lines <$> sheets !! 0%nat) =
    Some ((fun r => [Text (Item r); Number (Qty r); Number (Unit_Price r); Number (Total r)])
            <$> rows q) /\
  (forall ex, generate_excel_bytes company_info customer_info (with_extras q ex) quote_meta
              = Some sheets).
Proof.
  intros Hsheets. unfold generate_excel_bytes in *.
  destruct (company_info !! "name"), (company_info !! "address"),
    (customer_info !! "name"), (customer_info !! "phone"),
    (quote_meta !! "id"), (quote_meta !! "date"); simpl in *; try discriminate.
  injection Hsheets as <-. repeat split.
Qed.

End DocumentFacts.

(** ** The Quote Builder and My Quotes pages *)

Section PageFacts.
Context {num : Type} `{PyNumber num}.
Local Open Scope py_scope.
Implicit Types (s : session num) (f : quote_form num) (cat : list (string * num)).
Implicit Types (company_info : gmap string string).

(** The loop over the catalog is a filter followed by a map. *)
Lemma quote_builder_selected_items_filter cat (inc : string -> bool) (qty : string -> num) :
  quote_builder_selected_items cat inc qty =
  (fun e => {| sel_name := e.1; sel_qty := qty e.1; sel_unit := None |}) <$>
  filter (fun e => inc e.1 && (qty e.1 >? of_int 0) = true) cat.
Proof.
  unfold quote_builder_selected_items.
  assert (Hgen : forall acc,
    foldl (select_step inc qty) acc cat =
    acc ++ ((fun e => {| sel_name := e.1; sel_qty := qty e.1; sel_unit := None |}) <$>
            filter (fun e => inc e.1 && (qty e.1 >? of_int 0) = true) cat)).
  { induction cat as [|[name rate] cat IH]; intros acc; simpl.
    - by rewrite app_nil_r.
    - rewrite IH, filter_cons. simpl.
      destruct (inc name); destruct (gt (qty name) (of_int 0)); simpl;
        by rewrite <- ?app_assoc. }
  by rewrite Hgen.
Qed.

(** X8. A quote built from the form has no silently zero-priced row: with
    a price list that has no name twice, every row is an item of the price
    list at its listed rate, ticked and with a quantity that passed
    [qty > 0]; the rows come in the order of the price list, no item
    twice. *)
Theorem form_rows_priced_at_catalog_rates cat (inc : string -> bool) (qty : string -> num)
    (ex : extras_dict num) (d : num) :
  NoDup cat.*1 ->
  let q := calculate_quote (list_to_map cat)
             (quote_builder_selected_items cat inc qty) ex d in
  Forall (fun r => (Item r, Unit_Price r) ∈ cat /\
                   Total r = Unit_Price r * Qty r /\
                   Qty r = qty (Item r) /\
                   inc (Item r) = true /\
                   (Qty r >? of_int 0) = true) (rows q) /\
  sublist (Item <$> rows q) cat.*1 /\
  NoDup (Item <$> rows q).
Proof.
  intros Hnodup. cbv zeta.
  rewrite rows_calculate_quote, quote_builder_selected_items_filter.
  rewrite <- list_fmap_compose.
  assert (Hsub : sublist
            (Item <$> (row_of (list_to_map cat) ∘
               (fun e : string * num =>
                  {| sel_name := e.1; sel_qty := qty e.1; sel_unit := None |}) <$>
             filter (fun e => inc e.1 && (qty e.1 >? of_int 0) = true) cat)) cat.*1).
  { rewrite <- list_fmap_compose. apply fmap_sublist, sublist_filter. }
  split; [|split; [exact Hsub | by eapply sublist_NoDup]].
  apply Forall_fmap, Forall_forall. intros [name rate] [Hsel Hin]%list_elem_of_filter.
  simpl in Hsel. apply andb_true_iff in Hsel as [Hinc Hqty].
  cbn [compose row_of Item Qty Unit_Price Total sel_name sel_qty fst].
  unfold dict_get.
  rewrite (elem_of_list_to_map_1 (M := gmap string) cat name rate Hnodup Hin).
  done.
Qed.

Lemma quote_builder_extras_cases (design_fee misc : num) :
  quote_builder_extras design_fee misc =
  (if design_fee >? of_int 0 then [("Design Fee", design_fee)] else []) ++
  (if misc >? of_int 0 then [("Misc Charges", misc)] else []).
Proof.
  unfold quote_builder_extras.
  by destruct (design_fee >? of_int 0), (misc >? of_int 0).
Qed.

(** What a run of the Quote Builder page that completes has done. *)
Lemma quote_builder_page_completed s cat company_info stamp today f s' r :
  quote_builder_page s cat company_info stamp today f = Some (s', r) ->
  let selected := quote_builder_selected_items cat (inc_widget f) (qty_widget f) in
  logged_in s' = logged_in s /\
  username s' = username s /\
  (Forall record_keys_present (saved_quotes s) ->
   Forall record_keys_present (saved_quotes s')) /\
  match r with
  | QuoteGenerated record pdf excel =>
      submit f = true /\ cname f <> "" /\ cphone f <> "" /\ selected <> [] /\
      calc record =
        calculate_quote (list_to_map cat) selected
          (quote_builder_extras (design_fee f) (misc f)) (discount f) /\
      my_quotes s' = Some (saved_quotes s ++ [record]) /\
      generate_pdf_bytes company_info (customer record) (calc record) (meta record)
        = Some pdf /\
      generate_excel_bytes company_info (customer record) (calc record) (meta record)
        = Some excel
  | FormError _ =>
      s' = s /\ submit f = true /\ (cname f = "" \/ cphone f = "" \/ selected = [])
  | NotSubmitted => s' = s /\ submit f = false
  end.
Proof.
  cbv zeta. unfold quote_builder_page.
  destruct (submit f) eqn:Hsubmit; simpl; [|by intros [= <- <-]].
  destruct (cname f) as [|c cn] eqn:Hcname; simpl.
  { intros [= <- <-]. repeat split; auto. }
  destruct (cphone f) as [|p cp] eqn:Hcphone; simpl.
  { intros [= <- <-]. repeat split; auto. }
  destruct (quote_builder_selected_items cat (inc_widget f) (qty_widget f))
    as [|it sel] eqn:Hsel; simpl.
  { intros [= <- <-]. repeat split; auto. }
  set (quote_meta := <["timeline" := timeline f]> _).
  set (customer_info := <["email" := cemail f]> _).
  set (quote_calc := calculate_quote _ _ _ _).
  destruct (generate_pdf_bytes company_info customer_info quote_calc quote_meta)
    as [pdf|] eqn:Hpdf; simpl; [|discriminate].
  destruct (generate_excel_bytes company_info customer_info quote_calc quote_meta)
    as [excel|] eqn:Hexcel; simpl; [|discriminate].
  intros [= <- <-]. split; [done|]. split; [done|]. split.
  - intros Hsaved. unfold saved_quotes at 1. simpl.
    apply Forall_app. split; [done|]. constructor; [|done].
    repeat split; by eexists.
  - simpl. repeat split; done.
Qed.

(** X10. What one run of the Quote Builder page that completes has done.
    It has not changed the login state.  It has generated a quote only if
    the form was submitted with a customer name, a phone number and at
    least one item ticked with a positive quantity; the quote is then the
    one computed from the selection, the extras and the discount of the
    form, it was appended to the saved quotes, which are otherwise
    untouched, and the two documents are those of that quote.  In every
    other case the session is left as it was. *)
Theorem quote_builder_page_outcome s cat company_info stamp today f s' r :
  quote_builder_page s cat company_info stamp today f = Some (s', r) ->
  let selected := quote_builder_selected_items cat (inc_widget f) (qty_widget f) in
  logged_in s' = logged_in s /\
  username s' = username s /\
  (Forall record_keys_present (saved_quotes s) ->
   Forall record_keys_present (saved_quotes s')) /\
  match r with
  | QuoteGenerated record pdf excel =>
      submit f = true /\ cname f <> "" /\ cphone f <> "" /\ selected <> [] /\
      calc record =
        calculate_quote (list_to_map cat) selected
          (quote_builder_extras (design_fee f) (misc f)) (discount f) /\
      my_quotes s' = Some (saved_quotes s ++ [record]) /\
      generate_pdf_bytes company_info (customer record) (calc record) (meta record)
        = Some pdf /\
      generate_excel_bytes company_info (customer record) (calc record) (meta record)
        = Some excel
  | FormError _ =>
      s' = s /\ submit f = true /\ (cname f = "" \/ cphone f = "" \/ selected = [])
  | NotSubmitted => s' = s /\ submit f = false
  end.
Proof. apply quote_builder_page_completed. Qed.

Lemma my_quotes_entry_Some company_info (q : quote_record num) x :
  my_quotes_entry company_info q = Some x ->
  shown_rows x = rows (calc q) /\
  generate_pdf_bytes company_info (customer q) (calc q) (meta q) = Some (pdf_download x) /\
  generate_excel_bytes company_info (customer q) (calc q) (meta q)
    = Some (excel_download x).
Proof.
  unfold my_quotes_entry.
  destruct (meta q !! "id"); simpl; [|discriminate].
  destruct (customer q !! "name"); simpl; [|discriminate].
  destruct (generate_pdf_bytes _ _ _ _); simpl; [|discriminate].
  destruct (generate_excel_bytes _ _ _ _); simpl; [|discriminate].
  by intros [= <-].
Qed.

Lemma my_quotes_entries_Some company_info (qs : list (quote_record num)) xs :
  mapM (my_quotes_entry company_info) qs = Some xs ->
  shown_rows <$> xs = (fun q => rows (calc q)) <$> qs.
Proof.
  revert xs. induction qs as [|q qs IH]; intros xs; simpl.
  - by intros [= <-].
  - destruct (my_quotes_entry company_info q) as [x|] eqn:Hx; simpl; [|discriminate].
    destruct (mapM (my_quotes_entry company_info) qs) as [xs'|]; simpl; [|discriminate].
    intros [= <-]. simpl.
    destruct (my_quotes_entry_Some _ _ _ Hx) as (-> & _). f_equal. by apply IH.
Qed.

(** X11. A quote that was just generated is the first one on the My
    Quotes page: when the Quote Builder page has generated a quote and the
    My Quotes page of the resulting session (same company details)
    renders, it shows the new quote first, with its rows and with the same
    two documents, and then the earlier quotes, newest first. *)
Theorem saved_quote_is_shown_first s cat company_info stamp today f s' record pdf excel
    shown :
  quote_builder_page s cat company_info stamp today f
    = Some (s', QuoteGenerated record pdf excel) ->
  my_quotes_page s' company_info = Some shown ->
  exists x xs,
    shown = Some (x :: xs) /\
    shown_rows x = rows (calc record) /\
    pdf_download x = pdf /\
    excel_download x = excel /\
    shown_rows <$> xs = reverse ((fun q => rows (calc q)) <$> saved_quotes s).
Proof.
  intros Hpage Hshown.
  destruct (quote_builder_page_completed _ _ _ _ _ _ _ _ Hpage)
    as (_ & _ & _ & _ & _ & _ & _ & _ & Hquotes & Hpdf & Hexcel).
  unfold my_quotes_page in Hshown. rewrite Hquotes in Hshown.
  rewrite length_app in Hshown. simpl in Hshown.
  replace (length (saved_quotes s) + 1 =? 0)%nat with false in Hshown
    by (symmetry; apply Nat.eqb_neq; lia).
  rewrite reverse_snoc in Hshown. simpl in Hshown.
  destruct (my_quotes_entry company_info record) as [x|] eqn:Hx; simpl in Hshown;
    [|discriminate].
  destruct (mapM (my_quotes_entry company_info) (reverse (saved_quotes s)))
    as [xs|] eqn:Hxs; simpl in Hshown; [|discriminate].
  injection Hshown as <-.
  destruct (my_quotes_entry_Some _ _ _ Hx) as (Hrows & Hpdf' & Hexcel').
  rewrite Hpdf in Hpdf'. rewrite Hexcel in Hexcel'.
  injection Hpdf' as Hp. injection Hexcel' as He.
  exists x, xs. split; [done|]. split; [done|]. split; [done|]. split; [done|].
  rewrite (my_quotes_entries_Some _ _ _ Hxs). by rewrite fmap_reverse.
Qed.

End PageFacts.

(** ** The extras of the form *)

Section PricingFacts.
Local Open Scope Q_scope.
Implicit Types (rates : gmap string Q) (items : list (selection Q)).
Implicit Types (ex : extras_dict Q) (d : Q).

Lemma gt_zero_Q (x : Q) : (x >? of_int 0)%py = true <-> 0 < x.
Proof.
  cbn [gt of_int Q_number]. change (inject_Z 0) with 0.
  rewrite negb_true_iff. split.
  - intros Hle. apply Qnot_le_lt. intros Hx. apply Qle_bool_iff in Hx. congruence.
  - intros Hlt. destruct (Qle_bool x 0) eqn:Hle; [|done].
    apply Qle_bool_iff in Hle. exfalso. by apply (Qlt_not_le 0 x).
Qed.

(** X9. For a design fee and misc charges that are not negative (the
    bounds of the two inputs), the extras built by the form add up to
    design fee plus misc charges: leaving out a charge of 0 loses nothing.
    Every charge kept is positive, "Design Fee" comes before "Misc
    Charges", and no key is there twice. *)
Theorem quote_builder_extras_total (design_fee misc : Q) :
  0 <= design_fee -> 0 <= misc ->
  let ex := quote_builder_extras design_fee misc in
  Qsum (ex.*2) == design_fee + misc /\
  Forall (fun kv => 0 < kv.2) ex /\
  sublist (ex.*1) ["Design Fee"; "Misc Charges"] /\
  NoDup (ex.*1).
Proof.
  intros Hfee Hmisc. cbv zeta. rewrite quote_builder_extras_cases.
  assert (Hzero : forall x, 0 <= x -> (x >? of_int 0)%py = false -> x == 0).
  { intros x Hx Hgt. apply Qle_antisym; [|done].
    apply Qnot_lt_le. intros Hlt. apply gt_zero_Q in Hlt. congruence. }
  assert (Hsub : sublist
            (((if (design_fee >? of_int 0)%py then [("Design Fee", design_fee)] else []) ++
              (if (misc >? of_int 0)%py then [("Misc Charges", misc)] else [])).*1)
            ["Design Fee"; "Misc Charges"]).
  { destruct (design_fee >? of_int 0)%py, (misc >? of_int 0)%py; simpl;
      repeat first [apply sublist_skip; done | constructor]. }
  split; [|split; [|split; [exact Hsub|]]].
  - destruct (design_fee >? of_int 0)%py eqn:Hf, (misc >? of_int 0)%py eqn:Hm; simpl;
      rewrite ?(Hzero _ Hfee Hf), ?(Hzero _ Hmisc Hm); ring.
  - destruct (design_fee >? of_int 0)%py eqn:Hf, (misc >? of_int 0)%py eqn:Hm; simpl;
      repeat constructor; simpl; by apply gt_zero_Q.
  - eapply sublist_NoDup; [|exact Hsub].
    apply NoDup_cons. split; [by intros ?%list_elem_of_singleton|].
    apply NoDup_singleton.
Qed.

End PricingFacts.

(** ** Quotes built from the form, in binary64 *)

Section FormFacts.
Local Open Scope float_scope.

(** X12. A quote built from the form has no negative amount.  With a price
    list of finite non-negative rates, quantities, a design fee and other
    charges that are finite and not negative (the number inputs have
    [min_value=0.0]) and a discount between 0 and 100 (its bounds), and
    when the subtotal has not overflowed: every row has a positive
    quantity and a non-negative unit price and line total, and subtotal,
    discount_amt, taxable, the tax and grand_total are non-negative, the
    discount being at most the subtotal. *)
Theorem form_quote_amounts_nonneg_binary64 (cat : list (string * float))
    (inc : string -> bool) (qty : string -> float) (design_fee misc discount : float) :
  Forall (fun e => finite_nonneg e.2) cat ->
  (forall name, finite_nonneg (qty name)) ->
  finite_nonneg design_fee -> finite_nonneg misc ->
  (0 <=? discount) = true -> (discount <=? 100) = true ->
  let q := calculate_quote (list_to_map cat)
             (quote_builder_selected_items cat inc qty)
             (quote_builder_extras design_fee misc) discount in
  is_finite (subtotal q) = true ->
  Forall (fun r => (0 <? Qty r) = true /\ (0 <=? Unit_Price r) = true /\
                   (0 <=? Total r) = true) (rows q) /\
  (0 <=? subtotal q) = true /\
  (0 <=? discount_amt q) = true /\ (discount_amt q <=? subtotal q) = true /\
  (0 <=? taxable q) = true /\ (0 <=? gst_amt q) = true /\
  (0 <=? grand_total q) = true.
Proof.
  intros Hcat Hqty Hdf Hmisc Hd0 Hd100. cbv zeta.
  set (rates := list_to_map cat : gmap string float).
  set (items := quote_builder_selected_items cat inc qty).
  set (ex := quote_builder_extras design_fee misc).
  intros Hfs.
  assert (Hfd : is_finite discount = true).
  { apply (float_leb_finite discount 100); [done|done|by vm_compute]. }
  assert (Hin : finite_nonneg_inputs rates items ex).
  { split; [|split].
    - intros name rate Hl. apply elem_of_list_to_map_2 in Hl.
      rewrite Forall_forall in Hcat. by apply (Hcat (name, rate)).
    - unfold items. rewrite quote_builder_selected_items_filter.
      apply Forall_fmap, Forall_forall. intros e _. apply Hqty.
    - unfold ex. rewrite quote_builder_extras_cases.
      apply Forall_app. split.
      + destruct (design_fee >? of_int 0)%py;
          [apply Forall_cons; split; [exact Hdf|constructor] | constructor].
      + destruct (misc >? of_int 0)%py;
          [apply Forall_cons; split; [exact Hmisc|constructor] | constructor]. }
  pose proof (subtotal_nonneg rates items ex discount Hin) as Hs.
  destruct (calculate_quote_amounts rates items ex discount) as (Ed & Et & Eg & Egt).
  cbv zeta in Ed, Et, Eg, Egt.
  cbn [add sub mul truediv float_number] in Ed, Et, Eg, Egt.
  rewrite of_int_100 in Ed, Eg. rewrite of_int_GST_PERCENT in Eg.
  destruct (amounts_nonneg_of_subtotal _ discount Hfs Hs Hfd) as (Hdisc & Hle & Hrest).
  cbv zeta in Hdisc, Hle, Hrest.
  rewrite <- Ed in Hdisc, Hle, Hrest. rewrite <- Et in Hrest.
  rewrite <- Eg in Hrest. rewrite <- Egt in Hrest.
  destruct (Hrest Hd100) as (H1 & H2 & H3).
  split; [|by repeat split; auto].
  rewrite rows_calculate_quote.
  destruct Hin as (Hrates & Hq & _).
  pose proof (line_totals_nonneg rates items Hrates Hq) as Hlines.
  pose proof (quote_builder_selected_items_positive cat inc qty) as Hpos.
  fold items in Hpos.
  rewrite Forall_fmap in Hlines. apply Forall_fmap.
  rewrite Forall_forall in Hlines, Hpos. apply Forall_forall. intros it Hit.
  destruct (Hlines it Hit) as [Hu Ht]. specialize (Hpos it Hit).
  cbn [gt float_number] in Hpos. rewrite of_int_0 in Hpos.
  split; [exact Hpos|]. by split.
Qed.

End FormFacts.

Lemma form_quote_amounts_nonneg_binary64_witness :
  let q := calculate_quote (list_to_map [("Cement", 420%float); ("Sand", 1500%float)])
             (quote_builder_selected_items [("Cement", 420%float); ("Sand", 1500%float)]
                (fun name => String.eqb name "Cement") (fun _ => 10%float))
             (quote_builder_extras 1000%float 0%float) 10%float in
  (0 <=? subtotal q)%float = true /\ (discount_amt q <=? subtotal q)%float = true /\
  (0 <=? grand_total q)%float = true.
Proof.
  cbv zeta.
  destruct (form_quote_amounts_nonneg_binary64
              [("Cement", 420%float); ("Sand", 1500%float)]
              (fun name => String.eqb name "Cement") (fun _ => 10%float)
              1000%float 0%float 10%float)
    as (_ & Hs & _ & Hle & _ & _ & Hg).
  - repeat constructor; vm_compute; reflexivity.
  - intros _. split; vm_compute; reflexivity.
  - split; vm_compute; reflexivity.
  - split; vm_compute; reflexivity.
  - vm_compute. reflexivity.
  - vm_compute. reflexivity.
  - vm_compute. reflexivity.
  - by repeat split.
Defined.

(** ** No discount, in binary64 *)

Section NoDiscount.
Local Open Scope float_scope.

(** X16. A discount of 0 takes nothing off: whenever the subtotal has not
    overflowed, discount_amt is 0 and taxable is equal to the subtotal (it
    is the subtotal itself when that is not 0).  The tax and the grand
    total are then computed from the subtotal. *)
Theorem no_discount_leaves_subtotal (rates : gmap string float)
    (items : list (selection float)) (ex : extras_dict float) (d : float) :
  is_zero d = true ->
  let q := calculate_quote rates items ex d in
  is_finite (subtotal q) = true ->
  is_zero (discount_amt q) = true /\
  (taxable q =? subtotal q) = true /\
  (is_zero (subtotal q) = false ->
   taxable q = subtotal q /\
   gst_amt q = subtotal q * 18 / 100 /\
   grand_total q = subtotal q + subtotal q * 18 / 100).
Proof.
  intros Hd. cbv zeta. intros Hfs.
  destruct (calculate_quote_amounts rates items ex d) as (Ed & Et & Eg & Egt).
  cbv zeta in Ed, Et, Eg, Egt.
  cbn [add sub mul truediv float_number] in Ed, Et, Eg, Egt.
  rewrite of_int_100 in Ed, Eg. rewrite of_int_GST_PERCENT in Eg.
  assert (Hx : is_zero (d / 100) = true).
  { apply float_div_zero_l; [exact Hd|by vm_compute..]. }
  assert (Hdisc : is_zero (discount_amt (calculate_quote rates items ex d)) = true).
  { rewrite Ed. by apply float_mul_zero_r. }
  destruct (float_sub_zero_r _ _ Hfs Hdisc) as [Heq Hsame].
  rewrite <- Et in Heq, Hsame.
  split; [exact Hdisc|]. split; [exact Heq|].
  intros Hnz. specialize (Hsame Hnz).
  split; [exact Hsame|]. rewrite Egt, Eg, Hsame. by split.
Qed.

End NoDiscount.

Lemma no_discount_leaves_subtotal_witness :
  let q := calculate_quote (num := float) {["Cement" := 420%float]}
             [Selection "Cement" 10%float None] [("Design Fee", 0.1%float)] 0%float in
  is_zero (discount_amt q) = true /\ (taxable q =? subtotal q)%float = true.
Proof.
  cbv zeta.
  destruct (no_discount_leaves_subtotal {["Cement" := 420%float]}
              [Selection "Cement" 10%float None] [("Design Fee", 0.1%float)] 0%float)
    as (H1 & H2 & _); [vm_compute; reflexivity..|].
  by split.
Defined.

(** ** Later writes to the price list and to the extras *)

Section SharingFacts.
Context {num : Type} `{PyNumber num}.
Implicit Types (h : gmap loc (obj num)) (rates : gmap string num).
Implicit Types (items : list (selection num)) (ex : extras_dict num) (d : num).

(** Replacing the contents of an object by contents of the same kind
    changes no read of another kind. *)
Ltac read_after_edit Hl :=
  match goal with
  | |- context [<[?l := _]> _ !! ?x] =>
      destruct (decide (l = x)) as [<-|?];
      [rewrite lookup_insert_eq, Hl | rewrite lookup_insert_ne by done]; done
  end.

Lemma read_mapM_ext {A : Type} (f g : loc -> option A) (ls : list loc) :
  (forall l, f l = g l) -> mapM f ls = mapM g ls.
Proof.
  intros Hfg. induction ls as [|l ls IH]; [done|]. simpl. by rewrite Hfg, IH.
Qed.

Lemma quote_of_heap_rates_edit h l rates rates' q_l :
  h !! l = Some (ORates rates) ->
  quote_of_heap (<[l := ORates rates']> h) q_l = quote_of_heap h q_l.
Proof.
  intros Hl. unfold quote_of_heap.
  assert (Hq : read_quote (<[l := ORates rates']> h) q_l = read_quote h q_l)
    by (unfold read_quote; read_after_edit Hl).
  rewrite Hq. destruct (read_quote h q_l) as [qo|]; [|done]. simpl.
  assert (Hr : read_list (<[l := ORates rates']> h) (q_rows qo) = read_list h (q_rows qo))
    by (unfold read_list; read_after_edit Hl).
  rewrite Hr. destruct (read_list h (q_rows qo)) as [elems|]; [|done]. simpl.
  rewrite (read_mapM_ext (read_row (<[l := ORates rates']> h)) (read_row h))
    by (intros x; unfold read_row; read_after_edit Hl).
  destruct (mapM (read_row h) elems) as [rs|]; [|done]. simpl.
  assert (He : read_extras (<[l := ORates rates']> h) (q_extras qo)
               = read_extras h (q_extras qo))
    by (unfold read_extras; read_after_edit Hl).
  by rewrite He.
Qed.

Lemma inputs_at_rates_edit h rates_l sel_l ex_l rates rates' items ex :
  inputs_at h rates_l sel_l ex_l rates items ex ->
  inputs_at (<[rates_l := ORates rates']> h) rates_l sel_l ex_l rates' items ex.
Proof.
  intros (Hrates & Hex & elems & Hsel & Hitems).
  split; [apply lookup_insert_eq|]. split; [|exists elems; split].
  - rewrite lookup_insert_ne; [done | congruence].
  - rewrite lookup_insert_ne; [done | congruence].
  - eapply Forall2_impl; [exact Hitems|]. simpl. intros l it Hl.
    rewrite lookup_insert_ne; [done | congruence].
Qed.

(** X17. A change of prices affects later quotes only.  After a call has
    returned a quote, overwriting the contents of the price list (what the
    Admin page does to the global dict) leaves the value of that quote as
    it was computed; a new call with the same selections, extras and
    discount returns the quote at the new prices, and the earlier quote
    still has its value after it. *)
Theorem price_changes_affect_later_quotes_only h rates_l sel_l ex_l rates items ex d rates' :
  inputs_at h rates_l sel_l ex_l rates items ex ->
  exists h1 q1,
    calculate_quote_heap h rates_l sel_l ex_l d = Some (h1, q1) /\
    quote_of_heap (<[rates_l := ORates rates']> h1) q1
      = Some (calculate_quote rates items ex d) /\
    exists h2 q2,
      calculate_quote_heap (<[rates_l := ORates rates']> h1) rates_l sel_l ex_l d
        = Some (h2, q2) /\
      quote_of_heap h2 q2 = Some (calculate_quote rates' items ex d) /\
      quote_of_heap h2 q1 = Some (calculate_quote rates items ex d).
Proof.
  intros Hin.
  destruct (calculate_quote_heap_spec h rates_l sel_l ex_l rates items ex d Hin)
    as (h1 & q1 & qo1 & Hrun1 & _ & Hkeep1 & _ & _ & Hval1).
  assert (Hin1 : inputs_at h1 rates_l sel_l ex_l rates items ex)
    by (by eapply inputs_at_preserved).
  assert (Hval1' : quote_of_heap (<[rates_l := ORates rates']> h1) q1
                   = Some (calculate_quote rates items ex d)).
  { rewrite (quote_of_heap_rates_edit h1 rates_l rates rates'); [done|]. apply Hin1. }
  exists h1, q1. split; [done|]. split; [done|].
  destruct (calculate_quote_heap_spec (<[rates_l := ORates rates']> h1)
              rates_l sel_l ex_l rates' items ex d)
    as (h2 & q2 & qo2 & Hrun2 & _ & Hkeep2 & _ & _ & Hval2).
  { by apply (inputs_at_rates_edit h1 rates_l sel_l ex_l rates). }
  exists h2, q2. split; [done|]. split; [done|].
  by eapply quote_of_heap_preserved.
Qed.

(** X18. The returned quote is not a copy of the extras: its ['extras']
    entry is the caller's dict.  If the caller overwrites that dict after
    the call, the quote shows the new extras, while its rows and all its
    amounts stay those computed from the old ones. *)
Theorem returned_quote_shares_extras h rates_l sel_l ex_l rates items ex d ex' :
  inputs_at h rates_l sel_l ex_l rates items ex ->
  exists h1 q1,
    calculate_quote_heap h rates_l sel_l ex_l d = Some (h1, q1) /\
    quote_of_heap h1 q1 = Some (calculate_quote rates items ex d) /\
    quote_of_heap (<[ex_l := OExtras ex']> h1) q1
      = Some (with_extras (calculate_quote rates items ex d) ex').
Proof.
  intros Hin.
  destruct (calculate_quote_heap_spec h rates_l sel_l ex_l rates items ex d Hin)
    as (h1 & q1 & qo1 & Hrun1 & _ & Hkeep1 & Hq1 & Halias & Hval1).
  exists h1, q1. split; [done|]. split; [done|].
  assert (Hl : h1 !! ex_l = Some (OExtras ex)).
  { destruct Hin as (_ & Hex & _). rewrite Hkeep1; [done | by eexists]. }
  unfold quote_of_heap in *.
  assert (Hq : read_quote (<[ex_l := OExtras ex']> h1) q1 = read_quote h1 q1)
    by (unfold read_quote; read_after_edit Hl).
  rewrite Hq. unfold read_quote in *. rewrite Hq1 in *. simpl in *.
  assert (Hr : read_list (<[ex_l := OExtras ex']> h1) (q_rows qo1)
               = read_list h1 (q_rows qo1))
    by (unfold read_list; read_after_edit Hl).
  rewrite Hr. destruct (read_list h1 (q_rows qo1)) as [elems|]; [|discriminate].
  simpl in *.
  rewrite (read_mapM_ext (read_row (<[ex_l := OExtras ex']> h1)) (read_row h1))
    by (intros x; unfold read_row; read_after_edit Hl).
  destruct (mapM (read_row h1) elems) as [rs|]; [|discriminate]. simpl in *.
  unfold read_extras in *. rewrite Halias in *. rewrite Hl in Hval1.
  rewrite lookup_insert_eq. simpl in *.
  injection Hval1 as <-. done.
Qed.

End SharingFacts.

(** ** The properties above at example inputs *)

Lemma admin_changes_need_admin_login_witness :
  exists w, w ∈ [example_login] /\ login_button w = true /\
            username_input w = "admin" /\ password_input w = "admin".
Proof.
  apply (admin_changes_need_admin_login (num := Q) [example_login]
           {["Cement" := 420%Q]} ["Cement"] example_company_info
           (fun _ => Some 500%Q) None None
           {["Cement" := 500%Q]} example_company_info).
  - reflexivity.
  - intros Heq.
    pose proof (f_equal (fun p : gmap string Q * gmap string string => p.1 !! "Cement") Heq)
      as Hl.
    vm_compute in Hl. discriminate Hl.
Defined.

Lemma admin_page_updates_every_rate_witness :
  exists rates' company_info',
    admin_page (after_sidebar_runs (num := Q) new_session [example_login])
      {["Cement" := 420%Q]} ["Cement"] example_company_info
      (fun _ => Some 500%Q) None (Some "Jubilee Hills")
      = Some (rates', company_info') /\
    (forall k, rates' !! k =
               (fun current => default current (Some 500%Q)) <$>
               ({["Cement" := 420%Q]} : gmap string Q) !! k) /\
    dom rates' = dom ({["Cement" := 420%Q]} : gmap string Q) /\
    company_info' !! "name" =
      (fun current => default current None) <$> example_company_info !! "name" /\
    company_info' !! "address" =
      (fun current => default current (Some "Jubilee Hills")) <$>
      example_company_info !! "address" /\
    (forall k, k <> "name" -> k <> "address" ->
               company_info' !! k = example_company_info !! k).
Proof.
  apply (admin_page_updates_every_rate
           (after_sidebar_runs (num := Q) new_session [example_login])
           {["Cement" := 420%Q]} ["Cement"] example_company_info
           (fun _ => Some 500%Q) None (Some "Jubilee Hills")).
  - reflexivity.
  - intros k. rewrite list_elem_of_singleton. split.
    + intros ->. by eexists.
    + intros [v Hv]. by apply lookup_singleton_Some in Hv as [<- _].
  - by eexists.
  - by eexists.
Defined.

Lemma generate_pdf_bytes_story_shape_witness :
  exists story,
    generate_pdf_bytes example_company_info
      (<["phone" := "040"]> (<["name" := "Ramesh"]> ∅))
      (calculate_quote (num := Q) {["Cement" := 420%Q]} [Selection "Cement" 10%Q None]
         [("Design Fee", 1000%Q)] 10%Q)
      (<["date" := "01-Jan-2025"]> (<["id" := "HYD-1"]> ∅)) = Some story /\
    length (filter (fun f => is_page_break f = true) story) = 3%nat.
Proof.
  eexists. split; [reflexivity|].
  eapply (fun Hs => proj1 (generate_pdf_bytes_story_shape example_company_info
            (<["phone" := "040"]> (<["name" := "Ramesh"]> ∅))
            (calculate_quote (num := Q) {["Cement" := 420%Q]} [Selection "Cement" 10%Q None]
               [("Design Fee", 1000%Q)] 10%Q)
            (<["date" := "01-Jan-2025"]> (<["id" := "HYD-1"]> ∅)) _ Hs)).
  reflexivity.
Defined.

Lemma generate_excel_bytes_omits_extras_witness :
  exists sheets,
    generate_excel_bytes example_company_info
      (<["phone" := "040"]> (<["name" := "Ramesh"]> ∅))
      (calculate_quote (num := Q) {["Cement" := 420%Q]} [Selection "Cement" 10%Q None]
         [("Design Fee", 1000%Q)] 10%Q)
      (<["date" := "01-Jan-2025"]> (<["id" := "HYD-1"]> ∅)) = Some sheets /\
    sheet_name <$> sheets = ["Items"; "Summary"; "Info"].
Proof.
  eexists. split; [reflexivity|].
  eapply (fun Hs => proj1 (generate_excel_bytes_omits_extras example_company_info
            (<["phone" := "040"]> (<["name" := "Ramesh"]> ∅))
            (calculate_quote (num := Q) {["Cement" := 420%Q]} [Selection "Cement" 10%Q None]
               [("Design Fee", 1000%Q)] 10%Q)
            (<["date" := "01-Jan-2025"]> (<["id" := "HYD-1"]> ∅)) _ Hs)).
  reflexivity.
Defined.

Lemma example_catalog_NoDup : NoDup example_catalog.*1.
Proof.
  apply NoDup_cons. split; [by intros ?%list_elem_of_singleton|]. apply NoDup_singleton.
Defined.

Lemma form_rows_priced_at_catalog_rates_witness :
  let q := calculate_quote (list_to_map example_catalog)
             (quote_builder_selected_items example_catalog
                (inc_widget example_form) (qty_widget example_form)) [] 0%Q in
  Forall (fun r => (Item r, Unit_Price r) ∈ example_catalog /\
                   Total r = (Unit_Price r * Qty r)%Q /\
                   Qty r = qty_widget example_form (Item r) /\
                   inc_widget example_form (Item r) = true /\
                   (Qty r >? of_int 0)%py = true) (rows q) /\
  sublist (Item <$> rows q) example_catalog.*1 /\
  NoDup (Item <$> rows q).
Proof.
  exact (form_rows_priced_at_catalog_rates example_catalog
           (inc_widget example_form) (qty_widget example_form) [] 0%Q
           example_catalog_NoDup).
Defined.

Lemma quote_builder_extras_total_witness :
  let ex := quote_builder_extras 1000%Q 0%Q in
  (Qsum (ex.*2) == 1000 + 0)%Q /\
  Forall (fun kv => (0 < kv.2)%Q) ex /\
  sublist (ex.*1) ["Design Fee"; "Misc Charges"] /\
  NoDup (ex.*1).
Proof.
  apply (quote_builder_extras_total 1000%Q 0%Q); by vm_compute.
Defined.

Lemma quote_builder_page_outcome_witness :
  exists s' record pdf excel,
    quote_builder_page new_session example_catalog example_company_info
      "20250101120000" "01-Jan-2025" example_form
      = Some (s', QuoteGenerated record pdf excel) /\
    my_quotes s' = Some [record].
Proof.
  destruct (quote_builder_page new_session example_catalog example_company_info
              "20250101120000" "01-Jan-2025" example_form)
    as [[s' [| |record pdf excel]]|] eqn:Hrun;
    try (exfalso; vm_compute in Hrun; discriminate Hrun).
  destruct (quote_builder_page_outcome new_session example_catalog example_company_info
              "20250101120000" "01-Jan-2025" example_form s' _ Hrun)
    as (_ & _ & _ & Hr).
  exists s', record, pdf, excel. split; [reflexivity|].
  by destruct Hr as (_ & _ & _ & _ & _ & Hsaved & _).
Defined.

Lemma saved_quote_is_shown_first_witness :
  exists s' record pdf excel x xs,
    quote_builder_page new_session example_catalog example_company_info
      "20250101120000" "01-Jan-2025" example_form
      = Some (s', QuoteGenerated record pdf excel) /\
    my_quotes_page s' example_company_info = Some (Some (x :: xs)) /\
    shown_rows x = rows (calc record) /\
    pdf_download x = pdf /\
    excel_download x = excel /\
    shown_rows <$> xs = reverse ((fun q => rows (calc q)) <$> saved_quotes (num := Q) new_session).
Proof.
  destruct (quote_builder_page new_session example_catalog example_company_info
              "20250101120000" "01-Jan-2025" example_form)
    as [[s' [| |record pdf excel]]|] eqn:Hrun;
    try (exfalso; vm_compute in Hrun; discriminate Hrun).
  destruct (my_quotes_page s' example_company_info) as [shown|] eqn:Hshown.
  - destruct (saved_quote_is_shown_first new_session example_catalog example_company_info
                "20250101120000" "01-Jan-2025" example_form s' record pdf excel shown
                Hrun Hshown)
      as (x & xs & -> & Hrest).
    by exists s', record, pdf, excel, x, xs.
  - exfalso. vm_compute in Hrun. injection Hrun as <- <- <- <-.
    vm_compute in Hshown. discriminate Hshown.
Defined.

Lemma price_changes_affect_later_quotes_only_witness :
  exists h1 q1,
    calculate_quote_heap example_heap 1%positive 3%positive 4%positive 10%Q = Some (h1, q1) /\
    quote_of_heap (<[1%positive := ORates {["Cement" := 500%Q]}]> h1) q1
      = Some (calculate_quote {["Cement" := 420%Q]} [Selection "Cement" 10%Q None]
                [("Design Fee", 1000%Q)] 10%Q) /\
    exists h2 q2,
      calculate_quote_heap (<[1%positive := ORates {["Cement" := 500%Q]}]> h1)
        1%positive 3%positive 4%positive 10%Q = Some (h2, q2) /\
      quote_of_heap h2 q2
        = Some (calculate_quote {["Cement" := 500%Q]} [Selection "Cement" 10%Q None]
                  [("Design Fee", 1000%Q)] 10%Q) /\
      quote_of_heap h2 q1
        = Some (calculate_quote {["Cement" := 420%Q]} [Selection "Cement" 10%Q None]
                  [("Design Fee", 1000%Q)] 10%Q).
Proof.
  apply (price_changes_affect_later_quotes_only example_heap 1%positive 3%positive 4%positive
           {["Cement" := 420%Q]} [Selection "Cement" 10%Q None] [("Design Fee", 1000%Q)] 10%Q
           {["Cement" := 500%Q]}).
  exact example_heap_inputs.
Defined.

Lemma returned_quote_shares_extras_witness :
  exists h1 q1,
    calculate_quote_heap example_heap 1%positive 3%positive 4%positive 10%Q = Some (h1, q1) /\
    quote_of_heap h1 q1
      = Some (calculate_quote {["Cement" := 420%Q]} [Selection "Cement" 10%Q None]
                [("Design Fee", 1000%Q)] 10%Q) /\
    quote_of_heap (<[4%positive := OExtras [("Design Fee", 5%Q)]]> h1) q1
      = Some (with_extras
                (calculate_quote {["Cement" := 420%Q]} [Selection "Cement" 10%Q None]
                   [("Design Fee", 1000%Q)] 10%Q)
                [("Design Fee", 5%Q)]).
Proof.
  apply (returned_quote_shares_extras example_heap 1%positive 3%positive 4%positive
           {["Cement" := 420%Q]} [Selection "Cement" 10%Q None] [("Design Fee", 1000%Q)] 10%Q
           [("Design Fee", 5%Q)]).
  exact example_heap_inputs.
Defined.
